(** * linkedin-job-search: the listing store, the response extractor and
      the sheet publisher, embedded from [scripts/job_database.py],
      [scripts/llm_analyzer.py] and [scripts/sheets_integration.py], with
      the CV parser of [scripts/cv_parser.py] and the choice of the listings
      to analyse of [scripts/main.py].

    Scope of the embedding.
    - Python values carried by the dictionaries are [None], integers and
      text ([pyval]); floating-point listing fields are left out.
    - Text is ASCII text, held in a [string]: the classes [\s] and [\d] and
      the case mapping of [str.upper] are those of Python on the code points
      below 128.
    - The clock ([datetime.now()]) is an argument of each operation that
      reads it.
    - A SQLite table with a [PRIMARY KEY] column is a finite map from that
      column to the remaining columns.
    - The value of [float(text)] is the exact rational the decimal literal
      denotes; rounding to a double is not modelled.
    - A call to the Sheets API returns or raises, and
      [create_sheets_service()] gives a client or [None]: which of the two
      is part of the remote side an operation runs against. *)

From Stdlib Require Import ZArith QArith DecimalString Ascii.
From stdpp Require Import gmap strings list fin_maps sorting.

Set Warnings "-clear-no-such-hyp".
Open Scope Z_scope.

(** ** Part I: the program *)

(** *** Python values *)

Module Py.

Inductive pyval :=
| PyNone
| PyInt (z : Z)
| PyStr (s : string).

(** [str(z)] for an integer: the decimal numeral, with a leading minus
    sign for a negative number. *)
Definition str_of_Z (z : Z) : string := NilZero.string_of_int (Z.to_int z).

(** [str(v)] *)
Definition str (v : pyval) : string :=
  match v with
  | PyNone => "None"
  | PyInt z => str_of_Z z
  | PyStr s => s
  end.

#[global] Instance pyval_eq_dec : EqDecision pyval.
Proof. solve_decision. Defined.

#[global] Instance pyval_countable : Countable pyval.
Proof.
  refine (inj_countable'
    (λ v, match v with
          | PyNone => inl ()
          | PyInt z => inr (inl z)
          | PyStr s => inr (inr s)
          end)
    (λ x, match x with
          | inl _ => PyNone
          | inr (inl z) => PyInt z
          | inr (inr s) => PyStr s
          end) _).
  by intros [].
Defined.

(** [d.get(key, dflt)] on a dictionary with text keys. *)
Definition get (d : gmap string pyval) (key : string) (dflt : pyval) : pyval :=
  default dflt (d !! key).

(** The truth value of a Python value, as [if not v] tests it. *)
Definition truthy (v : pyval) : bool :=
  match v with
  | PyNone => false
  | PyInt z => negb (z =? 0)
  | PyStr s => negb (String.eqb s "")
  end.

(** [l[:n]] for an integer [n]: a negative [n] counts from the end. *)
Definition slice_to {A} (n : Z) (l : list A) : list A :=
  if decide (0 ≤ n) then take (Z.to_nat n) l
  else take (length l - Z.to_nat (- n)) l.

End Py.

(** *** scripts/job_database.py *)

Module JobDatabase.
Import Py.

(** What a column of declared type TEXT holds after a value is bound to
    it: NULL for [None], the text itself, or a number turned to text by the
    column's affinity. *)
Definition text_column (v : pyval) : option string :=
  match v with
  | PyNone => None
  | PyInt z => Some (str_of_Z z)
  | PyStr s => Some s
  end.

(** A row of table [jobs]; the primary key [job_id] is the key of the map
    that holds the row. *)
Record job_row := JobRow {
  title : option string;
  company : option string;
  location : option string;
  first_seen_date : string;
  last_checked_date : string;
  is_processed : Z
}.

(** A row of table [scraping_history], keyed by [run_id]. *)
Record run_row := RunRow {
  timestamp : string;
  search_config : string;
  job_count : Z;
  new_job_count : Z
}.

Definition set_last_checked (d : string) (r : job_row) : job_row :=
  JobRow (title r) (company r) (location r) (first_seen_date r) d (is_processed r).

Definition set_processed (r : job_row) : job_row :=
  JobRow (title r) (company r) (location r) (first_seen_date r)
         (last_checked_date r) 1.

(** [get_known_job_ids]: [SELECT job_id FROM jobs] collected in a set. *)
Definition get_known_job_ids (tbl : gmap string job_row) : gset string :=
  dom tbl.

(** The state threaded through the loop of [add_jobs_to_database]. *)
Record upsert_state := UpsertState {
  st_jobs : gmap string job_row;
  new_count : Z;
  updated_count : Z
}.

(** One iteration of [for job in jobs]. *)
Definition upsert_one (current_date : string) (st : upsert_state)
    (job : gmap string pyval) : upsert_state :=
  let job_id := str (get job "job_id" (PyStr "")) in
  if decide (job_id = "") then st
  else
    match st_jobs st !! job_id with
    | Some r =>
        UpsertState (<[job_id := set_last_checked current_date r]> (st_jobs st))
                    (new_count st) (updated_count st + 1)
    | None =>
        UpsertState
          (<[job_id := JobRow (text_column (get job "title" (PyStr "")))
                              (text_column (get job "company" (PyStr "")))
                              (text_column (get job "location" (PyStr "")))
                              current_date current_date 0]> (st_jobs st))
          (new_count st + 1) (updated_count st)
    end.

(** [add_jobs_to_database(jobs)], run at date [current_date] on table
    [tbl]: the table afterwards and the two counters of the returned
    dictionary. *)
Definition add_jobs_to_database (current_date : string)
    (jobs : list (gmap string pyval)) (tbl : gmap string job_row) : upsert_state :=
  foldl (upsert_one current_date) (UpsertState tbl 0 0) jobs.

(** [mark_jobs_as_processed(job_ids)]: the table afterwards and the
    returned [cursor.rowcount]. The bound SQLite puts on the number of
    [?] variables of one statement is not modelled; a statement over the
    bound raises before it changes a row. *)
Definition mark_jobs_as_processed (job_ids : list string)
    (tbl : gmap string job_row) : gmap string job_row * Z :=
  match job_ids with
  | [] => (tbl, 0)
  | _ =>
      (map_imap (λ k r, Some (if decide (k ∈ job_ids) then set_processed r else r)) tbl,
       Z.of_nat (size (filter (λ kr : string * job_row, kr.1 ∈ job_ids) tbl)))
  end.

(** [filter_new_jobs(jobs)] *)
Definition filter_new_jobs (jobs : list (gmap string pyval))
    (tbl : gmap string job_row) : list (gmap string pyval) :=
  let known_job_ids := get_known_job_ids tbl in
  filter (λ job, str (get job "job_id" (PyStr "")) ∉ known_job_ids) jobs.

(** What [cursor.execute] of an INSERT does on a table with a primary
    key: the row is stored, or [sqlite3.IntegrityError] is raised. *)
Inductive outcome :=
| Returned
| IntegrityError.

(** [record_scraping_run(run_id, search_config, job_count, new_job_count)],
    run at time [now] (the text of [datetime.now().isoformat()]);
    [config_json] is [json.dumps(search_config)]. *)
Definition record_scraping_run (now : string) (run_id : string)
    (config_json : string) (n_jobs n_new : Z)
    (hist : gmap string run_row) : outcome * gmap string run_row :=
  match hist !! run_id with
  | Some _ => (IntegrityError, hist)
  | None => (Returned, <[run_id := RunRow now config_json n_jobs n_new]> hist)
  end.

(** The identifier of a listing, as both [add_jobs_to_database] and
    [filter_new_jobs] compute it. *)
Definition identifier (job : gmap string pyval) : string :=
  str (get job "job_id" (PyStr "")).

(** The two operations that write table [jobs]. *)
Inductive store_op :=
| Upsert (current_date : string) (jobs : list (gmap string pyval))
| MarkProcessed (job_ids : list string).

Definition run_op (op : store_op) (tbl : gmap string job_row) : gmap string job_row :=
  match op with
  | Upsert d jobs => st_jobs (add_jobs_to_database d jobs tbl)
  | MarkProcessed ids => (mark_jobs_as_processed ids tbl).1
  end.

(** Dates are kept as [%Y-%m-%d] text, which the character order sorts by
    time. *)
Definition date_le (a b : string) : Prop := String.leb a b = true.

(** The clock has not gone back with respect to a stored row when the
    operation runs. *)
Definition clock_after (op : store_op) (r : job_row) : Prop :=
  match op with
  | Upsert d _ => date_le (last_checked_date r) d
  | MarkProcessed _ => True
  end.

(** What every write must keep of a stored row: the listing's metadata and
    first-seen date as they are, the last-checked date not earlier. The
    identifier is the key the row is stored under. *)
Definition row_preserved (r r' : job_row) : Prop :=
  title r' = title r ∧ company r' = company r ∧ location r' = location r ∧
  first_seen_date r' = first_seen_date r ∧
  date_le (last_checked_date r) (last_checked_date r').

(** The row [add_jobs_to_database] inserts for a listing seen for the first
    time at date [d]. *)
Definition row_of_listing (d : string) (job : gmap string pyval) : job_row :=
  JobRow (text_column (get job "title" (PyStr "")))
         (text_column (get job "company" (PyStr "")))
         (text_column (get job "location" (PyStr "")))
         d d 0.

(** The dictionary [get_recent_job_stats] returns. *)
Record job_stats := JobStats {
  total_jobs : Z;
  new_jobs_last_days : Z;
  processed_jobs : Z;
  scraping_runs_last_days : Z;
  time_period_days : Z
}.

(** [get_recent_job_stats(days)]; [threshold_date] is the [%Y-%m-%d] text
    of the day [days] days before now. The two [>= ?] tests of the queries
    compare text. *)
Definition get_recent_job_stats (threshold_date : string) (days : Z)
    (tbl : gmap string job_row) (hist : gmap string run_row) : job_stats :=
  JobStats
    (Z.of_nat (size tbl))
    (Z.of_nat (size (filter
       (λ kr : string * job_row,
          String.leb threshold_date (first_seen_date kr.2) = true) tbl)))
    (Z.of_nat (size (filter (λ kr : string * job_row, is_processed kr.2 = 1) tbl)))
    (Z.of_nat (size (filter
       (λ kr : string * run_row,
          String.leb threshold_date (timestamp kr.2) = true) hist)))
    days.

End JobDatabase.

(** *** Python's [re] and [str] on the patterns of scripts/llm_analyzer.py *)

Module Re.

Definition code (c : ascii) : nat := nat_of_ascii c.

(** [\s] on text, which is also what [str.strip()] removes: tab, line feed,
    vertical tab, form feed, carriage return, the four separators 28..31
    and the blank. *)
Definition is_space (c : ascii) : bool :=
  let n := code c in
  ((9 <=? n) && (n <=? 13) || (28 <=? n) && (n <=? 32))%nat.

(** [\d] *)
Definition is_digit (c : ascii) : bool :=
  let n := code c in ((48 <=? n) && (n <=? 57))%nat.

(** [.] under [re.DOTALL] *)
Definition any_char (c : ascii) : bool := true.

Fixpoint drop (n : nat) (s : string) : string :=
  match n, s with
  | S n', String _ s' => drop n' s'
  | _, _ => s
  end.

Fixpoint take (n : nat) (s : string) : string :=
  match n, s with
  | S n', String c s' => String c (take n' s')
  | _, _ => ""
  end.

(** [s] without its prefix [p], when it starts with [p]. *)
Fixpoint strip_prefix (p s : string) : option string :=
  match p, s with
  | "", _ => Some s
  | String a p', String b s' => if decide (a = b) then strip_prefix p' s' else None
  | String _ _, "" => None
  end.

(** Length of the longest prefix of [s] made of characters of the class. *)
Fixpoint span (cls : ascii → bool) (s : string) : nat :=
  match s with
  | String c s' => if cls c then S (span cls s') else O
  | "" => O
  end.

(** The patterns of the program are built from literal text, a character
    class repeated at least [lo] times (greedily, or lazily as in [+?]), an
    optional part, concatenation, and one capturing group. *)
Inductive regex :=
| Lit (p : string)
| Rep (greedy : bool) (lo : nat) (cls : ascii → bool)
| Opt (r : regex)
| Cat (r1 r2 : regex)
| Group (r : regex).

(** A point of a match attempt: the text still to read and what group 1 has
    captured. *)
Record mstate := MState { rest : string; group1 : option string }.

(** The repetition counts a quantifier tries, in the order it tries them. *)
Definition counts (greedy : bool) (lo hi : nat) : list nat :=
  let up := seq lo (S hi - lo) in
  if greedy then reverse up else up.

(** All the ways [r] matches at the start of the text, in the order the
    backtracking matcher explores them. *)
Fixpoint run (r : regex) (st : mstate) : list mstate :=
  match r with
  | Lit p =>
      match strip_prefix p (rest st) with
      | Some s' => [MState s' (group1 st)]
      | None => []
      end
  | Rep greedy lo cls =>
      (λ k, MState (drop k (rest st)) (group1 st))
        <$> counts greedy lo (span cls (rest st))
  | Opt r1 => run r1 st ++ [st]
  | Cat r1 r2 => run r1 st ≫= run r2
  | Group r1 =>
      (λ st', MState (rest st')
                (Some (take (String.length (rest st) - String.length (rest st'))
                            (rest st))))
        <$> run r1 st
  end.

(** [re.search(r, s)]: the first way to match at the leftmost position that
    has one. *)
Fixpoint search_from (r : regex) (s : string) : option mstate :=
  match run r (MState s None) with
  | m :: _ => Some m
  | [] =>
      match s with
      | String _ s' => search_from r s'
      | "" => None
      end
  end.

(** [m = re.search(r, s)] followed by [m.group(1)]; [None] when there is no
    match. *)
Definition search (r : regex) (s : string) : option string :=
  search_from r s ≫= group1.

Fixpoint lstrip (s : string) : string :=
  match s with
  | String c s' => if is_space c then lstrip s' else s
  | "" => ""
  end.

Fixpoint rstrip (s : string) : string :=
  match s with
  | String c s' =>
      match rstrip s' with
      | "" => if is_space c then "" else String c ""
      | t => String c t
      end
  | "" => ""
  end.

(** [s.strip()] *)
Definition strip (s : string) : string := rstrip (lstrip s).

Definition upper_char (c : ascii) : ascii :=
  let n := code c in
  if ((97 <=? n) && (n <=? 122))%nat then ascii_of_nat (n - 32) else c.

(** [s.upper()] *)
Fixpoint upper (s : string) : string :=
  match s with
  | String c s' => String (upper_char c) (upper s')
  | "" => ""
  end.

(** [s.startswith(p)] *)
Definition startswith (s p : string) : bool :=
  match strip_prefix p s with Some _ => true | None => false end.

(** [p in s] *)
Fixpoint contains (p s : string) : bool :=
  startswith s p ||
  match s with
  | String _ s' => contains p s'
  | "" => false
  end.

Fixpoint digits_value (acc : N) (s : string) : option N :=
  match s with
  | "" => Some acc
  | String c s' =>
      if is_digit c then digits_value (10 * acc + N.of_nat (code c - 48))%N s'
      else None
  end.

(** [float(s)] for [s] a decimal literal, [digits] or [digits.digits], which
    is all the patterns of the program capture ([captured_numbers_parse]
    below); on any other text the result is [None], which the callers treat
    as [ValueError]. *)
Definition float (s : string) : option Q :=
  let n := span is_digit s in
  match n, drop n s with
  | O, _ => None
  | _, "" => (λ v, inject_Z (Z.of_N v)) <$> digits_value 0 s
  | _, String "."%char f =>
      match f with
      | "" => None
      | _ =>
          i ← digits_value 0 (take n s);
          v ← digits_value i f;
          Some (Qred (Z.of_N v # Pos.pow 10 (Pos.of_nat (String.length f))))
      end
  | _, _ => None
  end.

(** The text has no character [<]. *)
Fixpoint no_lt (s : string) : bool :=
  match s with
  | String c s' => negb (Ascii.eqb c "<") && no_lt s'
  | "" => true
  end.

(** The text is made of blanks only. *)
Fixpoint all_space (s : string) : bool :=
  match s with
  | String c s' => is_space c && all_space s'
  | "" => true
  end.

(** The text has a character that is not a blank. *)
Fixpoint visible (s : string) : bool :=
  match s with
  | String c s' => negb (is_space c) || visible s'
  | "" => false
  end.

(** The text is a non-empty run of digits. *)
Definition digits (s : string) : bool :=
  negb (String.eqb s "") && (span is_digit s =? String.length s)%nat.

(** A decimal literal: digits, or digits, a point and digits. *)
Definition decimal_literal (whole : string) (frac : option string) : string :=
  match frac with
  | Some f => whole +:+ "." +:+ f
  | None => whole
  end.

End Re.

(** *** scripts/llm_analyzer.py *)

Module LlmAnalyzer.
Import Re.

(** A value of the dictionary [sections]. *)
Inductive value :=
| VFloat (x : Q)
| VText (s : string).

(** [\d+(?:\.\d+)?] *)
Definition number : regex :=
  Cat (Rep true 1 is_digit) (Opt (Cat (Lit ".") (Rep true 1 is_digit))).

(** [<score>(\d+(?:\.\d+)?)</score>] *)
Definition score_re : regex :=
  Cat (Lit "<score>") (Cat (Group number) (Lit "</score>")).

(** [<tag>\s*(.+?)\s*</tag>] with [re.DOTALL] *)
Definition section_re (tag : string) : regex :=
  Cat (Lit ("<" +:+ tag +:+ ">"))
      (Cat (Rep true 0 is_space)
           (Cat (Group (Rep false 1 any_char))
                (Cat (Rep true 0 is_space) (Lit ("</" +:+ tag +:+ ">"))))).

(** [(\d+(?:\.\d+)?)] *)
Definition number_re : regex := Group number.

(** [try: float(text) except ValueError: 0.0] *)
Definition float_or_zero (text : string) : Q := default 0%Q (float text).

(** The block "Extract main score". *)
Definition extract_score (response_text : string)
    (sections : gmap string value) : gmap string value :=
  match search score_re response_text with
  | Some g => <["score" := VFloat (float_or_zero g)]> sections
  | None => <["score" := VFloat 0%Q]> sections
  end.

(** The blocks "Extract human fit score" and "Extract ATS fit score", which
    differ in the tag only. *)
Definition extract_fit (tag : string) (response_text : string)
    (sections : gmap string value) : gmap string value :=
  match search (section_re tag) response_text with
  | Some g =>
      let content := strip g in
      let sections :=
        match search number_re content with
        | Some n => <[tag := VFloat (float_or_zero n)]> sections
        | None => <[tag := VFloat 0%Q]> sections
        end in
      <[tag +:+ "_text" := VText content]> sections
  | None => <[tag +:+ "_text" := VText ""]> (<[tag := VFloat 0%Q]> sections)
  end.

(** The blocks for the free-text sections, which differ in the tag only. *)
Definition extract_text (tag : string) (response_text : string)
    (sections : gmap string value) : gmap string value :=
  match search (section_re tag) response_text with
  | Some g => <[tag := VText (strip g)]> sections
  | None => <[tag := VText ""]> sections
  end.

(** The [if]/[elif] chain that derives the recommendation code. *)
Definition recommendation_code (recommendation_text : string) : string :=
  let u := upper recommendation_text in
  if startswith u "PURSUE" then "PURSUE"
  else if startswith u "CONSIDER" then "CONSIDER"
  else if startswith u "AVOID" then "AVOID"
  else if contains "PURSUE" u then "PURSUE"
  else if contains "CONSIDER" u then "CONSIDER"
  else if contains "AVOID" u then "AVOID"
  else "REVIEW".

(** The block "Extract recommendation". *)
Definition extract_recommendation (response_text : string)
    (sections : gmap string value) : gmap string value :=
  match search (section_re "recommendation") response_text with
  | Some g =>
      let recommendation_text := strip g in
      <["recommendation_code" := VText (recommendation_code recommendation_text)]>
        (<["recommendation" := VText recommendation_text]> sections)
  | None =>
      <["recommendation_code" := VText "REVIEW"]>
        (<["recommendation" := VText ""]> sections)
  end.

(** [extract_response_sections(response_text)] *)
Definition extract_response_sections (response_text : string) : gmap string value :=
  let sections : gmap string value := ∅ in
  let sections := extract_score response_text sections in
  let sections := extract_fit "human_fit" response_text sections in
  let sections := extract_fit "ats_fit" response_text sections in
  let sections := extract_text "key_strengths" response_text sections in
  let sections := extract_text "critical_gaps" response_text sections in
  let sections := extract_text "cv_tailoring" response_text sections in
  let sections := extract_text "experience_positioning" response_text sections in
  let sections := extract_text "talking_points" response_text sections in
  let sections := extract_recommendation response_text sections in
  let sections := extract_text "summary" response_text sections in
  sections.

(** The ten tags [extract_response_sections] searches for, in the order of
    its [re.search] calls. *)
Definition searched_tags : list string :=
  ["score"; "human_fit"; "ats_fit"; "key_strengths"; "critical_gaps";
   "cv_tailoring"; "experience_positioning"; "talking_points";
   "recommendation"; "summary"].

(** The pattern a tag is searched with. *)
Definition pattern_of (tag : string) : regex :=
  if decide (tag = "score") then score_re else section_re tag.

(** The keys of [sections] that the block of a tag assigns. *)
Definition fields_of (tag : string) : list string :=
  if decide (tag = "human_fit" ∨ tag = "ats_fit") then [tag; tag +:+ "_text"]
  else if decide (tag = "recommendation") then [tag; "recommendation_code"]
  else [tag].

(** The block of a tag. *)
Definition block (tag : string) : string → gmap string value → gmap string value :=
  if decide (tag = "score") then extract_score
  else if decide (tag = "human_fit" ∨ tag = "ats_fit") then extract_fit tag
  else if decide (tag = "recommendation") then extract_recommendation
  else extract_text tag.

(** What each kind of field holds, given what the search for its own tag
    found. *)
Definition score_value (found : option string) : value :=
  VFloat (match found with Some g => float_or_zero g | None => 0%Q end).

Definition fit_value (found : option string) : value :=
  VFloat (match found with
          | Some g =>
              match search number_re (strip g) with
              | Some n => float_or_zero n
              | None => 0%Q
              end
          | None => 0%Q
          end).

Definition text_value (found : option string) : value :=
  VText (match found with Some g => strip g | None => "" end).

Definition code_value (found : option string) : value :=
  VText (match found with
         | Some g => recommendation_code (strip g)
         | None => "REVIEW"
         end).

Definition field_value (tag key : string) (found : option string) : value :=
  if decide (tag = "score") then score_value found
  else if decide (key = "recommendation_code") then code_value found
  else if decide (key = tag) then
    (if decide (tag = "human_fit" ∨ tag = "ats_fit") then fit_value found
     else text_value found)
  else text_value found.

(** The derivation of the recommendation code in the words of the
    specification: the keyword the text starts with, else the first keyword
    in the order PURSUE, CONSIDER, AVOID that occurs in it, else REVIEW;
    both without regard to case. *)
Definition keywords : list string := ["PURSUE"; "CONSIDER"; "AVOID"].

Definition spec_recommendation_code (text : string) : string :=
  match List.find (startswith (upper text)) keywords with
  | Some k => k
  | None =>
      match List.find (λ k, contains k (upper text)) keywords with
      | Some k => k
      | None => "REVIEW"
      end
  end.

(** The keys of the dictionary [analyze_job] returns that the batch step
    reads, and the listing it belongs to. *)
Record analysis := Analysis {
  job_id : string;
  job_title : string;
  match_score : Q
}.

(** [results.sort(key=lambda x: x.get('match_score', 0), reverse=True)]: a
    stable sort, greatest score first. An element goes in front of the first
    one whose score is not greater than its own. *)
Fixpoint insert_by_score (x : analysis) (l : list analysis) : list analysis :=
  match l with
  | [] => [x]
  | y :: l' =>
      if Qlt_le_dec (match_score x) (match_score y)
      then y :: insert_by_score x l'
      else x :: y :: l'
  end.

Definition sort_by_score (l : list analysis) : list analysis :=
  foldr insert_by_score [] l.

(** The [while pending] loop: [completed] lists the results of the tasks in
    the order the loop reads them, one [done] set of [asyncio.wait] after
    the other and each set in its iteration order; the results that are
    [None] are left out. *)
Definition collect (completed : list (option analysis)) : list analysis :=
  omap id completed.

(** [analyze_jobs_batch]: [cv_parsed] tells whether the CV could be read,
    [completed] lists what the analysis tasks returned, in the order the
    loop reads them. Tasks that finish before one wake-up of [asyncio.wait]
    come in one [done] set, so this order need not be the one in which the
    tasks finished. *)
Definition analyze_jobs_batch (cv_parsed : bool)
    (completed : list (option analysis)) : list analysis :=
  if cv_parsed then sort_by_score (collect completed) else [].

(** Greatest score first. *)
Definition score_ge (a b : analysis) : Prop := (match_score b <= match_score a)%Q.

(** [extract_best_matches(analysis_results, threshold)] *)
Definition extract_best_matches (analysis_results : list analysis)
    (threshold : Q) : list analysis :=
  filter (λ job, Qle_bool threshold (match_score job) = true) analysis_results.

(** The sort key of [prefilter_jobs], [x.get('relevance_score', 0)]. The
    dictionaries that reach the sort hold the integer the loop has just
    assigned under that key. *)
Definition relevance (job : gmap string Py.pyval) : Z :=
  match Py.get job "relevance_score" (Py.PyInt 0) with
  | Py.PyInt z => z
  | _ => 0
  end.

(** [filtered_jobs.sort(key=..., reverse=True)]: stable, greatest key
    first. *)
Fixpoint insert_by_relevance (x : gmap string Py.pyval)
    (l : list (gmap string Py.pyval)) : list (gmap string Py.pyval) :=
  match l with
  | [] => [x]
  | y :: l' =>
      if decide (relevance x < relevance y)
      then y :: insert_by_relevance x l'
      else x :: y :: l'
  end.

Definition sort_by_relevance (l : list (gmap string Py.pyval))
    : list (gmap string Py.pyval) :=
  foldr insert_by_relevance [] l.

(** The test [if not job.get('descriptionText')] of the loop, negated. *)
Definition has_description (job : gmap string Py.pyval) : Prop :=
  Py.truthy (Py.get job "descriptionText" Py.PyNone) = true.

(** [prefilter_jobs(jobs, max_jobs)]: the returned list. The assignment
    [job['relevance_score'] = 1] also shows in the caller's dictionaries,
    which the returned value does not depend on. *)
Definition prefilter_jobs (jobs : list (gmap string Py.pyval)) (max_jobs : Z)
    : list (gmap string Py.pyval) :=
  let filtered_jobs :=
    (λ job, <["relevance_score" := Py.PyInt 1]> job) <$> filter has_description jobs in
  Py.slice_to max_jobs (sort_by_relevance filtered_jobs).

(** The four recommendation codes. *)
Definition codes : list string := ["PURSUE"; "CONSIDER"; "AVOID"; "REVIEW"].

(** The keys of [sections] that hold a number, and those that hold text
    taken from the response. *)
Definition numeric_fields : list string := ["score"; "human_fit"; "ats_fit"].

Definition text_fields : list string :=
  ["human_fit_text"; "ats_fit_text"; "key_strengths"; "critical_gaps";
   "cv_tailoring"; "experience_positioning"; "talking_points";
   "recommendation"; "summary"].

(** The nine section tags, and the key under which the text of a section is
    stored. *)
Definition section_tags : list string :=
  ["human_fit"; "ats_fit"; "key_strengths"; "critical_gaps"; "cv_tailoring";
   "experience_positioning"; "talking_points"; "recommendation"; "summary"].

Definition text_key (tag : string) : string :=
  if decide (tag = "human_fit" ∨ tag = "ats_fit") then tag +:+ "_text" else tag.

(** A response with a section [<tag>body</tag>] between [pre] and [post]. *)
Definition with_section (tag pre body post : string) : string :=
  pre +:+ ("<" +:+ tag +:+ ">") +:+ body +:+ ("</" +:+ tag +:+ ">") +:+ post.

(** A response with a score tag [<score>num</score>] between [pre] and
    [post]. *)
Definition with_score (pre num post : string) : string :=
  pre +:+ "<score>" +:+ num +:+ "</score>" +:+ post.

End LlmAnalyzer.

(** *** scripts/sheets_integration.py *)

Module SheetsIntegration.
Import Py.

(** The three functions that ask [create_sheets_service()] for a client. *)
Inductive caller :=
| UpdateSheetHeaders
| GetExistingJobData
| AppendToSheet.

(** The remote sheet as the program meets it during one run: whether
    [create_sheets_service()] gives a client to the function that asks for
    it, the rows the sheet holds in the range, and for each of the four
    calls sent through a client ([values().get], [values().update],
    [values().batchUpdate] and [values().append], each followed by
    [execute()]) whether it raises instead of returning. *)
Record remote := Remote {
  service : caller → bool;
  values : list (list pyval);
  get_raises : bool;
  update_raises : bool;
  batch_update_raises : bool;
  append_raises : bool
}.

(** A sheet holding [rows] on which every call goes through. *)
Definition reachable (rows : list (list pyval)) : remote :=
  Remote (λ _, true) rows false false false false.

(** A value of the dictionary built by [get_existing_job_data]. *)
Record entry := Entry {
  row_index : nat;
  data : list pyval
}.

(** The body of [for i, row in enumerate(values)]. *)
Definition index_row (job_data : gmap pyval entry) (ir : nat * list pyval)
    : gmap pyval entry :=
  if decide (7 ≤ length ir.2)%nat then
    match ir.2 !! 6%nat with
    | Some job_id => <[job_id := Entry ir.1 ir.2]> job_data
    | None => job_data
    end
  else job_data.

(** [get_existing_job_data(sheet_id, sheet_range)]: the dictionary is
    empty when there is no client ([if not service: return {}]) and when
    the read raises ([except Exception: return {}]). *)
Definition get_existing_job_data (w : remote) : gmap pyval entry :=
  if negb (service w GetExistingJobData) then ∅
  else if get_raises w then ∅
  else foldl index_row ∅ (imap pair (values w)).

(** [sheet_range.split('!')[0]] *)
Fixpoint base_range (sheet_range : string) : string :=
  match sheet_range with
  | String c s' => if decide (c = "!"%char) then "" else String c (base_range s')
  | "" => ""
  end.

(** An element of [updates]: [{'range': ..., 'values': [row]}]. *)
Record update := Update {
  range : string;
  new_values : list (list pyval)
}.

(** The two calls that write to the sheet. *)
Inductive request :=
| BatchUpdate (sheet_id : string) (body : list update)
| Append (sheet_id sheet_range : string) (body : list (list pyval)).

Definition rows_written (req : request) : list (list pyval) :=
  match req with
  | BatchUpdate _ body => body ≫= new_values
  | Append _ _ body => body
  end.

(** The two lists filled by the loop over the input rows. *)
Record queues := Queues {
  filtered_values : list (list pyval);
  updates : list update
}.

(** The body of [for row in values]. *)
Definition queue_row (existing_job_data : gmap pyval entry) (base : string)
    (force_update : bool) (q : queues) (row : list pyval) : queues :=
  if decide (7 ≤ length row)%nat then
    match row !! 6%nat with
    | Some job_id =>
        match existing_job_data !! job_id with
        | Some e =>
            if force_update then
              Queues (filtered_values q)
                     (updates q ++
                      [Update (base +:+ "!A" +:+ str_of_Z (Z.of_nat (row_index e + 2)))
                              [row]])
            else q
        | None => Queues (filtered_values q ++ [row]) (updates q)
        end
    | None => q
    end
  else q.

Definition nonempty {A} (l : list A) : bool :=
  match l with [] => false | _ => true end.

(** [append_to_sheet(sheet_id, sheet_range, values, force_update)]: the
    returned flag and the write requests sent, in order. A request that
    raises is the last one sent: the [except] branch returns [False], so
    that after a failed [batchUpdate] no [append] follows. *)
Definition append_to_sheet (w : remote) (sheet_id sheet_range : string)
    (rows : list (list pyval)) (force_update : bool) : bool * list request :=
  if negb (nonempty rows) then (true, [])
  else if negb (service w AppendToSheet) then (false, [])
  else
    let existing_job_data := get_existing_job_data w in
    let q := foldl (queue_row existing_job_data (base_range sheet_range) force_update)
                   (Queues [] []) rows in
    let batch_update :=
      if force_update && nonempty (updates q)
      then [BatchUpdate sheet_id (updates q)] else [] in
    if nonempty batch_update && batch_update_raises w then (false, batch_update)
    else
      let append :=
        if nonempty (filtered_values q)
        then [Append sheet_id sheet_range (filtered_values q)] else [] in
      if nonempty append && append_raises w then (false, batch_update ++ append)
      else (true, batch_update ++ append).

(** Both lists hold rows of seven cells or more only. *)
Definition long_queues (q : queues) : Prop :=
  Forall (λ row, (7 ≤ length row)%nat) (filtered_values q) ∧
  Forall (λ u, Forall (λ row, (7 ≤ length row)%nat) (new_values u)) (updates q).

(** The keys found in column 6 of the remote rows. *)
Definition remote_keys (rows : list (list pyval)) : list pyval :=
  omap (λ row, row !! 6%nat) rows.

(** The key of an input row, when it has one, is among the remote keys. *)
Definition key_present (w : remote) (row : list pyval) : Prop :=
  match row !! 6%nat with
  | Some k => k ∈ remote_keys (values w)
  | None => True
  end.

#[global] Instance key_present_dec w row : Decision (key_present w row).
Proof. unfold key_present. destruct (row !! 6%nat); apply _. Defined.

(** An input row is new when it has a key in column 6 that no remote row
    has there. *)
Definition has_new_key (w : remote) (row : list pyval) : Prop :=
  match row !! 6%nat with
  | Some k => k ∉ remote_keys (values w)
  | None => False
  end.

#[global] Instance has_new_key_dec w row : Decision (has_new_key w row).
Proof. unfold has_new_key. destruct (row !! 6%nat); apply _. Defined.

(** The same test against the dictionary of remote rows. *)
Definition unknown_key (existing_job_data : gmap pyval entry)
    (row : list pyval) : Prop :=
  match row !! 6%nat with
  | Some k => existing_job_data !! k = None
  | None => False
  end.

#[global] Instance unknown_key_dec ex row : Decision (unknown_key ex row).
Proof. unfold unknown_key. destruct (row !! 6%nat); apply _. Defined.

(** The element of [updates] queued for an input row whose key is found in
    the dictionary of remote rows. *)
Definition update_of (existing_job_data : gmap pyval entry) (base : string)
    (row : list pyval) : option update :=
  k ← row !! 6%nat;
  e ← existing_job_data !! k;
  Some (Update (base +:+ "!A" +:+ str_of_Z (Z.of_nat (row_index e + 2))) [row]).

(** The rows a list of write requests appends, and the updates it makes. *)
Definition appended (writes : list request) : list (list pyval) :=
  writes ≫= λ req,
    match req with
    | Append _ _ body => body
    | BatchUpdate _ _ => []
    end.

Definition updated (writes : list request) : list update :=
  writes ≫= λ req,
    match req with
    | BatchUpdate _ body => body
    | Append _ _ _ => []
    end.

(** The header row of [update_sheet_headers]. *)
Definition header : list string :=
  ["Timestamp"; "Job Title"; "Company"; "Match Score";
   "Summary"; "Recommendation Code"; "Recommendation Details"; "URL"; "Job ID";
   "Location"; "Seniority Level";
   "Employment Type"; "Job Function"; "Industries"; "Posted Date";
   "Company Website"; "Company LinkedIn"; "Salary";
   "Human Fit Score"; "ATS Fit Score"; "Key Strengths"; "Critical Gaps";
   "CV Tailoring"; "Experience Positioning"; "Talking Points";
   "Description"].

(** The row [save_analyzed_jobs_to_sheet] builds for one analysis result;
    [now] is the text of [datetime.now().isoformat()] read for that row. *)
Definition sheet_row (now : string) (job : gmap string pyval) : list pyval :=
  [get job "timestamp" (PyStr now);
   get job "job_title" (PyStr "");
   get job "company" (PyStr "");
   get job "match_score" (PyInt 0);
   get job "summary" (PyStr "");
   get job "recommendation_code" (PyStr "REVIEW");
   get job "recommendation" (PyStr "");
   get job "job_url" (PyStr "");
   get job "job_id" (PyStr "");
   get job "location" (PyStr "");
   get job "seniority_level" (PyStr "");
   get job "employment_type" (PyStr "");
   get job "job_function" (PyStr "");
   get job "industries" (PyStr "");
   get job "posted_at" (PyStr "");
   get job "company_website" (PyStr "");
   get job "company_linkedin" (PyStr "");
   get job "salary" (PyStr "");
   get job "human_fit" (PyInt 0);
   get job "ats_fit" (PyInt 0);
   get job "key_strengths" (PyStr "");
   get job "critical_gaps" (PyStr "");
   get job "cv_tailoring" (PyStr "");
   get job "experience_positioning" (PyStr "");
   get job "talking_points" (PyStr "");
   get job "description" (PyStr "")].

(** What [save_analyzed_jobs_to_sheet] sends: the header update of
    [update_sheet_headers], then the writes of [append_to_sheet]. *)
Inductive sheet_call :=
| HeaderUpdate (sheet_id range : string) (names : list string)
| Write (req : request).

(** [update_sheet_headers()] on the configured sheet: the returned flag and
    the call sent; the flag is [False] without a client and when the call
    raises. *)
Definition update_sheet_headers (w : remote) (sheet_id sheet_range : string)
    : bool * list sheet_call :=
  if negb (service w UpdateSheetHeaders) then (false, [])
  else (negb (update_raises w),
        [HeaderUpdate sheet_id (base_range sheet_range +:+ "!A1") header]).

(** [save_analyzed_jobs_to_sheet(analysis_results, force_update)] on the
    configured sheet [sheet_id], [sheet_range]; [clock i] is the time read
    while row [i] is built, and [csv_saved] tells whether writing the local
    copy went through (an exception there makes the function return
    [False]). The flag of [update_sheet_headers] is not looked at. *)
Definition save_analyzed_jobs_to_sheet (w : remote) (sheet_id sheet_range : string)
    (clock : nat → string) (csv_saved : bool)
    (analysis_results : list (gmap string pyval)) (force_update : bool)
    : bool * list sheet_call :=
  let headers := update_sheet_headers w sheet_id sheet_range in
  let sheet_rows := imap (λ i job, sheet_row (clock i) job) analysis_results in
  let result := append_to_sheet w sheet_id sheet_range sheet_rows force_update in
  (if csv_saved then result.1 else false, headers.2 ++ (Write <$> result.2)).

(** The write requests among the calls sent. *)
Definition writes_of (calls : list sheet_call) : list request :=
  omap (λ c, match c with Write req => Some req | HeaderUpdate _ _ _ => None end) calls.

End SheetsIntegration.

(** *** scripts/cv_parser.py *)

Module CvParser.
Import Re.

(** The line feed. *)
Definition lf : ascii := ascii_of_nat 10.

(** A dictionary from text to text that keeps the order in which its keys
    were first assigned, as Python's [dict] does: a list of pairs with
    distinct keys. *)
Definition dict_get (k : string) (d : list (string * string)) : option string :=
  snd <$> List.find (λ kv, bool_decide (kv.1 = k)) d.

(** [k in d] *)
Definition dict_has (k : string) (d : list (string * string)) : bool :=
  bool_decide (is_Some (dict_get k d)).

(** [d[k] = v]: the value is replaced where the key is, or the pair is added
    at the end. *)
Fixpoint dict_set (k v : string) (d : list (string * string))
    : list (string * string) :=
  match d with
  | [] => [(k, v)]
  | (k', v') :: d' =>
      if decide (k' = k) then (k, v) :: d' else (k', v') :: dict_set k v d'
  end.

(** [d[k] += line]; [None] stands for the [KeyError] raised when the key
    is missing. *)
Definition dict_iadd (k line : string) (d : list (string * string))
    : option (list (string * string)) :=
  v ← dict_get k d; Some (dict_set k (v +:+ line) d).

(** The variables of the loop of [parse_markdown_cv]. *)
Record parser := Parser {
  cv_data : list (string * string);
  current_section : option string;
  current_subsection : option string
}.

(** The truth value of a variable that holds [None] or a text. *)
Definition truthy_text (v : option string) : bool :=
  match v with
  | Some (String _ _) => true
  | _ => false
  end.

(** One iteration of [for line in lines]; [None] stands for an exception,
    which makes the function return the empty dictionary. *)
Definition parse_line (st : parser) (line : string) : option parser :=
  if startswith line "# " then
    let section := strip (drop 2 line) in
    Some (Parser (dict_set section "" (cv_data st)) (Some section) None)
  else if startswith line "## " then
    if truthy_text (current_section st) then
      let section := default "" (current_section st) in
      let subsection := strip (drop 3 line) in
      let d := cv_data st in
      let d := if dict_has section d then d else dict_set section "" d in
      let d := if dict_has subsection d then d else dict_set subsection "" d in
      Some (Parser d (current_section st) (Some subsection))
    else Some st
  else if truthy_text (current_section st) then
    if truthy_text (current_subsection st) then
      let subsection := default "" (current_subsection st) in
      if dict_has subsection (cv_data st) then
        d ← dict_iadd subsection line (cv_data st);
        Some (Parser d (current_section st) (current_subsection st))
      else
        Some (Parser (dict_set subsection line (cv_data st))
                     (current_section st) (current_subsection st))
    else
      d ← dict_iadd (default "" (current_section st)) line (cv_data st);
      Some (Parser d (current_section st) (current_subsection st))
  else Some st.

(** The loop over the lines. *)
Definition parse_lines (lines : list string) : option parser :=
  foldl (λ st line, st ≫= λ st, parse_line st line) (Some (Parser [] None None)) lines.

(** [parse_markdown_cv(file_path)]; [file] holds the lines [f.readlines()]
    gives, or [None] when the file does not exist or cannot be read. *)
Definition parse_markdown_cv (file : option (list string)) : list (string * string) :=
  match file with
  | None => []
  | Some lines =>
      match parse_lines lines with
      | Some st => (λ kv : string * string, (kv.1, strip kv.2)) <$> cv_data st
      | None => []
      end
  end.

(** [s.split(c)] for a separator of one character. *)
Fixpoint split_on (c : ascii) (s : string) : list string :=
  match s with
  | "" => [""]
  | String d s' =>
      if decide (d = c) then "" :: split_on c s'
      else
        match split_on c s' with
        | piece :: pieces => String d piece :: pieces
        | [] => [String d ""]
        end
  end.

(** [sep.join(l)] *)
Fixpoint join (sep : string) (l : list string) : string :=
  match l with
  | [] => ""
  | [x] => x
  | x :: l' => x +:+ sep +:+ join sep l'
  end.

Fixpoint lstrip_chars (cs : string) (s : string) : string :=
  match s with
  | String c s' => if contains (String c "") cs then lstrip_chars cs s' else s
  | "" => ""
  end.

Fixpoint rstrip_chars (cs : string) (s : string) : string :=
  match s with
  | String c s' =>
      match rstrip_chars cs s' with
      | "" => if contains (String c "") cs then "" else String c ""
      | t => String c t
      end
  | "" => ""
  end.

(** [s.strip(cs)]: the characters of [cs] are removed at both ends. *)
Definition strip_chars (cs s : string) : string := rstrip_chars cs (lstrip_chars cs s).

Definition priority_sections : list string :=
  ["Summary"; "Skills"; "Experience"; "Education"; "Projects"].

(** The comma-separated list made of the section [Skills]. *)
Definition format_skills (content : string) : string :=
  join ", " ((λ skill, strip (strip_chars "- " skill))
               <$> filter (λ skill, strip skill ≠ "") (split_on lf content)).

(** [f"{section}:\n{content}"] *)
Definition part (section content : string) : string :=
  section +:+ ":" +:+ String lf content.

(** [prompt_parts] after the two loops of [format_cv_for_prompt]. *)
Definition prompt_parts (cv : list (string * string)) : list string :=
  omap (λ section,
          match dict_get section cv with
          | Some (String c content') =>
              let content := String c content' in
              Some (if decide (section = "Skills")
                    then part section (format_skills content)
                    else part section content)
          | _ => None
          end) priority_sections ++
  omap (λ kv : string * string,
          if bool_decide (kv.1 ∉ priority_sections) && negb (String.eqb kv.2 "")
          then Some (part kv.1 kv.2) else None) cv.

(** The text before it is trimmed. *)
Definition joined_parts (cv : list (string * string)) : string :=
  join (String lf (String lf "")) (prompt_parts cv).

Definition truncation_note : string :=
  "..." +:+ String lf "[Content truncated due to length]".

(** [s[:n]] on text. *)
Definition text_slice_to (n : Z) (s : string) : string :=
  if decide (0 ≤ n) then take (Z.to_nat n) s
  else take (String.length s - Z.to_nat (- n)) s.

(** [format_cv_for_prompt(cv_data, max_length)] *)
Definition format_cv_for_prompt (cv : list (string * string)) (max_length : Z) : string :=
  let formatted_cv := joined_parts cv in
  if max_length <? Z.of_nat (String.length formatted_cv)
  then text_slice_to max_length formatted_cv +:+ truncation_note
  else formatted_cv.

(** The name [parse_markdown_cv] gives the section that a header line
    opens: [line[2:].strip()]. *)
Definition section_name (header : string) : string := strip (drop 2 header).

(** A line that opens neither a section nor a subsection. *)
Definition plain (line : string) : Prop :=
  startswith line "# " = false ∧ startswith line "## " = false.

(** The lines of a section one after the other. *)
Definition concat_lines (lines : list string) : string :=
  foldr String.append "" lines.

(** A CV file made of sections only: each is a header line followed by plain
    lines, and has a non-empty name that no other section has. *)
Definition sections_ok (secs : list (string * list string)) : Prop :=
  Forall (λ sec : string * list string,
            startswith sec.1 "# " = true ∧ section_name sec.1 ≠ "" ∧
            Forall plain sec.2) secs ∧
  NoDup ((λ sec : string * list string, section_name sec.1) <$> secs).

(** The lines of such a file. *)
Definition file_lines (secs : list (string * list string)) : list string :=
  secs ≫= λ sec, sec.1 :: sec.2.

(** The state of the loop keeps the section it adds text to in the
    dictionary. *)
Definition section_known (st : parser) : Prop :=
  truthy_text (current_section st) = true →
  is_Some (dict_get (default "" (current_section st)) (cv_data st)).

End CvParser.

(** *** scripts/main.py: the choice of the listings to analyse *)

Module Pipeline.
Import Py JobDatabase.

(** The part of [main] between the scrape and the analysis, when scraping is
    not skipped: [new_jobs = filter_new_jobs(all_jobs)], the choice of
    [jobs_data], and the limit applied before [analyze_jobs_batch].
    [max_jobs_to_analyze] is the integer of that name in the configuration,
    [tbl] the table before the listings of this run are added. *)
Definition jobs_for_analysis (all_jobs : list (gmap string pyval))
    (tbl : gmap string job_row) (max_jobs_to_analyze : Z)
    : list (gmap string pyval) :=
  let new_jobs := filter_new_jobs all_jobs tbl in
  let jobs_data :=
    match new_jobs with
    | _ :: _ => new_jobs
    | [] =>
        let max_jobs := Z.min max_jobs_to_analyze (Z.of_nat (length all_jobs)) in
        slice_to max_jobs all_jobs
    end in
  if truthy (PyInt max_jobs_to_analyze) &&
     (max_jobs_to_analyze <? Z.of_nat (length jobs_data))
  then slice_to max_jobs_to_analyze jobs_data
  else jobs_data.

End Pipeline.

(** ** Part II: properties *)

Section JobDatabaseFacts.
Import Py JobDatabase.

Lemma upsert_one_dom d st job :
  dom (st_jobs (upsert_one d st job)) =
  dom (st_jobs st) ∪ (if decide (identifier job = "") then ∅ else {[identifier job]}).
Proof.
  unfold upsert_one, identifier.
  destruct (decide (str (get job "job_id" (PyStr "")) = "")) as [He|Hne].
  - set_solver.
  - destruct (st_jobs st !! _) eqn:Hl; simpl; rewrite dom_insert_L; [|set_solver].
    apply elem_of_dom_2 in Hl. set_solver.
Qed.

Lemma foldl_upsert_dom d jobs st :
  dom (st_jobs (foldl (upsert_one d) st jobs)) =
  dom (st_jobs st) ∪ list_to_set (filter (λ i, i ≠ "") (identifier <$> jobs)).
Proof.
  revert st. induction jobs as [|job jobs IH]; intros st; simpl.
  - set_solver.
  - rewrite IH, upsert_one_dom. rewrite filter_cons.
    destruct (decide (identifier job = "")); destruct (decide (identifier job ≠ ""));
      try contradiction; set_solver.
Qed.

Lemma known_after_add d jobs :
  get_known_job_ids (st_jobs (add_jobs_to_database d jobs ∅)) =
  list_to_set (filter (λ i, i ≠ "") (identifier <$> jobs)).
Proof.
  unfold get_known_job_ids, add_jobs_to_database.
  rewrite foldl_upsert_dom. simpl. rewrite dom_empty_L. set_solver.
Qed.

(** C1, as the code has it: after the listings [L1] are added to an empty
    table, [filter_new_jobs L2] keeps, in the order of [L2], the listings
    whose identifier is empty (no [job_id], or an empty one) or is not the
    identifier of a listing of [L1]. It holds for all [L1] and [L2], so
    also when [L1] is part of [L2]. *)
Theorem filter_new_jobs_after_add d (L1 L2 : list (gmap string pyval)) :
  filter_new_jobs L2 (st_jobs (add_jobs_to_database d L1 ∅)) =
  filter (λ job, identifier job = "" ∨ identifier job ∉ (identifier <$> L1)) L2.
Proof.
  unfold filter_new_jobs. rewrite known_after_add.
  apply list_filter_iff. intros job. fold (identifier job).
  rewrite elem_of_list_to_set, list_elem_of_filter.
  destruct (decide (identifier job = "")) as [->|Hne]; [naive_solver|].
  split; [intros Hn; right; intros Hin; apply Hn; done | intros [?|Hn] [_ Hin]; done].
Qed.

(** C1 as stated fails: a listing without [job_id] added in the first run
    is returned as unseen in the second run, although its (empty)
    identifier occurs in [L1]. *)
Lemma filter_new_jobs_not_difference :
  ¬ (∀ d (L1 L2 : list (gmap string pyval)), L1 ⊆ L2 →
      filter_new_jobs L2 (st_jobs (add_jobs_to_database d L1 ∅)) =
      filter (λ job, identifier job ∉ (identifier <$> L1)) L2).
Proof.
  intros H.
  specialize (H "2024-05-01" [{["title" := PyStr "Engineer"]}]
                [{["title" := PyStr "Engineer"]}]).
  assert (Hs : ([{["title" := PyStr "Engineer"]}] : list (gmap string pyval))
               ⊆ [{["title" := PyStr "Engineer"]}]) by done.
  specialize (H Hs). vm_compute in H. discriminate H.
Qed.

(** C2: one listing with a non-empty identifier, added to an empty table
    at date [d1], counts as new and is stored with both dates [d1]; added
    again at date [d2] it counts as updated, and the stored row differs from
    the first one in the last-checked date only. *)
Theorem upsert_twice d1 d2 (job : gmap string pyval) :
  identifier job ≠ "" →
  let s1 := add_jobs_to_database d1 [job] ∅ in
  let s2 := add_jobs_to_database d2 [job] (st_jobs s1) in
  let t := text_column (get job "title" (PyStr "")) in
  let c := text_column (get job "company" (PyStr "")) in
  let l := text_column (get job "location" (PyStr "")) in
  (new_count s1 = 1 ∧ updated_count s1 = 0 ∧
   st_jobs s1 = {[identifier job := JobRow t c l d1 d1 0]}) ∧
  (new_count s2 = 0 ∧ updated_count s2 = 1 ∧
   st_jobs s2 = {[identifier job := JobRow t c l d1 d2 0]}).
Proof.
  intros Hne. unfold add_jobs_to_database. cbn [foldl].
  assert (H1 : upsert_one d1 (UpsertState ∅ 0 0) job =
    UpsertState {[identifier job :=
        JobRow (text_column (get job "title" (PyStr "")))
               (text_column (get job "company" (PyStr "")))
               (text_column (get job "location" (PyStr ""))) d1 d1 0]} 1 0).
  { unfold upsert_one. fold (identifier job).
    destruct (decide (identifier job = "")) as [|_]; [done|].
    cbn [st_jobs new_count updated_count]. rewrite lookup_empty.
    by rewrite insert_empty. }
  rewrite H1. cbn [st_jobs new_count updated_count].
  split; [done|].
  unfold upsert_one. fold (identifier job).
  destruct (decide (identifier job = "")) as [|_]; [done|].
  cbn [st_jobs new_count updated_count]. rewrite lookup_singleton_eq.
  cbn [st_jobs new_count updated_count].
  split; [done|]. split; [done|]. unfold set_last_checked. simpl.
  by rewrite insert_singleton_eq.
Qed.

Lemma upsert_twice_witness :
  let job : gmap string pyval :=
    {["job_id" := PyInt 4012; "title" := PyStr "Data Engineer"]} in
  let s1 := add_jobs_to_database "2024-05-01" [job] ∅ in
  let s2 := add_jobs_to_database "2024-05-03" [job] (st_jobs s1) in
  (new_count s1 = 1 ∧ updated_count s1 = 0 ∧
   st_jobs s1 = {["4012" := JobRow (Some "Data Engineer") (Some "") (Some "")
                                   "2024-05-01" "2024-05-01" 0]}) ∧
  (new_count s2 = 0 ∧ updated_count s2 = 1 ∧
   st_jobs s2 = {["4012" := JobRow (Some "Data Engineer") (Some "") (Some "")
                                   "2024-05-01" "2024-05-03" 0]}).
Proof.
  intros job.
  apply (upsert_twice "2024-05-01" "2024-05-03" job).
  vm_compute. discriminate.
Defined.

Lemma date_le_refl a : date_le a a.
Proof. unfold date_le. by destruct (String.leb_total a a). Qed.

Lemma row_preserved_refl r : row_preserved r r.
Proof. unfold row_preserved. auto using date_le_refl. Qed.

Lemma upsert_one_lookup d st job id r :
  st_jobs st !! id = Some r →
  st_jobs (upsert_one d st job) !! id = Some r ∨
  st_jobs (upsert_one d st job) !! id = Some (set_last_checked d r).
Proof.
  intros Hr. unfold upsert_one. fold (identifier job).
  destruct (decide (identifier job = "")) as [|_]; [by left|].
  destruct (decide (identifier job = id)) as [->|Hk].
  - rewrite Hr. cbn [st_jobs]. right. apply lookup_insert_eq.
  - left. destruct (st_jobs st !! identifier job); cbn [st_jobs];
      by rewrite lookup_insert_ne.
Qed.

Lemma foldl_upsert_lookup d jobs st id r :
  st_jobs st !! id = Some r →
  st_jobs (foldl (upsert_one d) st jobs) !! id = Some r ∨
  st_jobs (foldl (upsert_one d) st jobs) !! id = Some (set_last_checked d r).
Proof.
  revert st r. induction jobs as [|job jobs IH]; intros st r Hr; simpl; [by left|].
  destruct (upsert_one_lookup d st job id r Hr) as [H1|H1].
  - by apply IH.
  - destruct (IH _ _ H1) as [H2|H2]; right; exact H2.
Qed.

Lemma mark_processed_lookup ids (tbl : gmap string job_row) id r :
  tbl !! id = Some r →
  (mark_jobs_as_processed ids tbl).1 !! id = Some r ∨
  (mark_jobs_as_processed ids tbl).1 !! id = Some (set_processed r).
Proof.
  intros Hr. unfold mark_jobs_as_processed. destruct ids as [|i ids]; [by left|].
  simpl. rewrite map_lookup_imap, Hr. simpl.
  destruct (decide (id ∈ i :: ids)); [by right | by left].
Qed.

(** C6: each write to table [jobs] ([add_jobs_to_database],
    [mark_jobs_as_processed]) keeps every stored row under its identifier,
    with the same title, company, location and first-seen date, and with a
    last-checked date that is not earlier, provided the clock has not gone
    back since the row was last checked. *)
Theorem store_invariant op (tbl : gmap string job_row) id r :
  tbl !! id = Some r →
  clock_after op r →
  ∃ r', run_op op tbl !! id = Some r' ∧ row_preserved r r'.
Proof.
  intros Hr Hclock. destruct op as [d jobs|ids]; simpl in *.
  - destruct (foldl_upsert_lookup d jobs (UpsertState tbl 0 0) id r Hr) as [H|H];
      eexists; (split; [exact H|]).
    + apply row_preserved_refl.
    + unfold row_preserved; simpl. auto.
  - destruct (mark_processed_lookup ids tbl id r Hr) as [H|H];
      eexists; (split; [exact H|]).
    + apply row_preserved_refl.
    + unfold row_preserved; simpl. auto using date_le_refl.
Qed.

Lemma store_invariant_witness :
  ∃ r', run_op (Upsert "2024-05-03"
                  [{["job_id" := PyStr "4012"; "title" := PyStr "Lead Engineer"]}])
               {["4012" := JobRow (Some "Data Engineer") None (Some "Kyiv")
                                  "2024-05-01" "2024-05-02" 1]} !! "4012" = Some r' ∧
        row_preserved (JobRow (Some "Data Engineer") None (Some "Kyiv")
                              "2024-05-01" "2024-05-02" 1) r'.
Proof.
  apply (store_invariant
           (Upsert "2024-05-03"
              [{["job_id" := PyStr "4012"; "title" := PyStr "Lead Engineer"]}])
           {["4012" := JobRow (Some "Data Engineer") None (Some "Kyiv")
                              "2024-05-01" "2024-05-02" 1]} "4012");
    vm_compute; reflexivity.
Defined.

(** C9: [record_scraping_run] leaves every stored run record as it is; with
    a fresh [run_id] it returns and the table has exactly one more row, the
    new record; with a [run_id] already stored it raises the integrity error
    and the table is unchanged. *)
Theorem record_scraping_run_append_only now run_id cfg n m
    (hist : gmap string run_row) :
  hist ⊆ (record_scraping_run now run_id cfg n m hist).2 ∧
  match hist !! run_id with
  | None =>
      record_scraping_run now run_id cfg n m hist =
        (Returned, <[run_id := RunRow now cfg n m]> hist) ∧
      size (record_scraping_run now run_id cfg n m hist).2 = S (size hist) ∧
      (record_scraping_run now run_id cfg n m hist).2 !! run_id =
        Some (RunRow now cfg n m)
  | Some _ =>
      record_scraping_run now run_id cfg n m hist = (IntegrityError, hist)
  end.
Proof.
  unfold record_scraping_run. destruct (hist !! run_id) eqn:Hl; simpl.
  - done.
  - split; [by apply insert_subseteq|].
    split; [done|]. split; [by apply map_size_insert_None | apply lookup_insert_eq].
Qed.

End JobDatabaseFacts.

Section ReFacts.
Import Re LlmAnalyzer.

Lemma span_le cls s : (span cls s ≤ String.length s)%nat.
Proof. induction s as [|c s IH]; simpl; [lia|]. destruct (cls c); lia. Qed.

Lemma length_drop k s :
  (k ≤ String.length s)%nat → String.length (drop k s) = (String.length s - k)%nat.
Proof.
  revert s. induction k as [|k IH]; intros [|c s] H; simpl in *; try lia.
  by apply IH; lia.
Qed.

Lemma length_take k s :
  (k ≤ String.length s)%nat → String.length (take k s) = k.
Proof.
  revert s. induction k as [|k IH]; intros [|c s] H; simpl in *; try lia.
  by rewrite IH; [|lia].
Qed.

Lemma take_add k m s :
  (k ≤ String.length s)%nat → take (k + m) s = take k s +:+ take m (drop k s).
Proof.
  revert s. induction k as [|k IH]; intros s H; simpl.
  - by destruct m, s.
  - destruct s as [|c s]; simpl in *; [lia|]. by rewrite IH; [|lia].
Qed.

Lemma span_take cls k s :
  (k ≤ span cls s)%nat → span cls (take k s) = k.
Proof.
  revert s. induction k as [|k IH]; intros [|c s] H; simpl in *; try lia.
  destruct (cls c); [|lia]. by rewrite IH; [|lia].
Qed.

Lemma span_app_stop cls a c b :
  span cls a = String.length a → cls c = false →
  span cls (a +:+ String c b) = String.length a.
Proof.
  intros Ha Hc. induction a as [|x a IH]; simpl in *; [by rewrite Hc|].
  destruct (cls x); [|lia]. rewrite IH; lia.
Qed.

Lemma drop_app a b : drop (String.length a) (a +:+ b) = b.
Proof. induction a as [|x a IH]; simpl; [by destruct b|done]. Qed.

Lemma take_app a b : take (String.length a) (a +:+ b) = a.
Proof. induction a as [|x a IH]; simpl; [by destruct b|by rewrite IH]. Qed.

Lemma drop_all s : drop (String.length s) s = "".
Proof. by induction s. Qed.

Lemma digits_value_some acc s :
  span is_digit s = String.length s → is_Some (digits_value acc s).
Proof.
  revert acc. induction s as [|c s IH]; intros acc H; simpl in *; [by eexists|].
  destruct (is_digit c); [|lia]. apply IH. lia.
Qed.

(** [float] accepts the digits at the start of a text. *)
Lemma float_digits k s :
  (1 ≤ k ≤ span is_digit s)%nat → is_Some (float (take k s)).
Proof.
  intros [Hk1 Hk2]. pose proof (span_le is_digit s).
  assert (Hsp : span is_digit (take k s) = String.length (take k s))
    by (by rewrite span_take, length_take; [|lia|]).
  assert (Hd : drop k (take k s) = "")
    by (by rewrite <- (length_take k s) at 1; [rewrite drop_all|lia]).
  destruct (digits_value_some 0 _ Hsp) as [v Hv].
  unfold float. cbv zeta. rewrite span_take by done.
  destruct k; [lia|]. rewrite Hd, Hv. by eexists.
Qed.

(** [float] accepts digits, a point and digits. *)
Lemma float_digits_point k j s t :
  (1 ≤ k ≤ span is_digit s)%nat → drop k s = String "."%char t →
  (1 ≤ j ≤ span is_digit t)%nat →
  is_Some (float (take (k + (1 + j)) s)).
Proof.
  intros [Hk1 Hk2] Hd [Hj1 Hj2].
  pose proof (span_le is_digit s). pose proof (span_le is_digit t).
  assert (Ha : span is_digit (take k s) = String.length (take k s))
    by (by rewrite span_take, length_take; [|lia|]).
  assert (Hb : span is_digit (take j t) = String.length (take j t))
    by (by rewrite span_take, length_take; [|lia|]).
  rewrite take_add, Hd by lia.
  change (take (1 + j) (String "."%char t)) with (String "."%char (take j t)).
  destruct (digits_value_some 0 _ Ha) as [i Hi].
  destruct (digits_value_some i _ Hb) as [v Hv].
  assert (Hf : take j t ≠ "").
  { intros Hf. apply (f_equal String.length) in Hf.
    rewrite length_take in Hf by lia. simpl in Hf. lia. }
  unfold float. cbv zeta. rewrite span_app_stop by done.
  pose proof (drop_app (take k s) (String "."%char (take j t))) as Hdrop.
  pose proof (take_app (take k s) (String "."%char (take j t))) as Htake.
  rewrite length_take in * by lia.
  destruct k; [lia|]. rewrite Hdrop, Htake.
  destruct (take j t) as [|c f]; [done|].
  rewrite Hi. simpl in *. rewrite Hv. by eexists.
Qed.

Lemma run_lit p st st' :
  st' ∈ run (Lit p) st →
  group1 st' = group1 st ∧ strip_prefix p (rest st) = Some (rest st').
Proof.
  simpl. destruct (strip_prefix p (rest st)) as [s'|]; [|by intros ?%elem_of_nil].
  by intros ->%list_elem_of_singleton.
Qed.

Lemma run_rep greedy lo cls st st' :
  st' ∈ run (Rep greedy lo cls) st →
  ∃ k, (lo ≤ k ≤ span cls (rest st))%nat ∧
       st' = MState (drop k (rest st)) (group1 st).
Proof.
  simpl. intros (k & -> & Hk)%list_elem_of_fmap. exists k. split; [|done].
  unfold counts in Hk.
  destruct greedy; rewrite ?elem_of_reverse, elem_of_seq in Hk; lia.
Qed.

Lemma strip_prefix_point s s' :
  strip_prefix "." s = Some s' → s = String "."%char s'.
Proof.
  destruct s as [|c s]; simpl; [done|].
  destruct (decide ("."%char = c)) as [<-|]; [|done]. by intros [= ->].
Qed.

(** What [\d+(?:\.\d+)?] consumes: digits, or digits, a point and digits. *)
Lemma run_number st st' :
  st' ∈ run number st →
  group1 st' = group1 st ∧
  ∃ k, (1 ≤ k ≤ span is_digit (rest st))%nat ∧
       (rest st' = drop k (rest st) ∨
        ∃ t j, drop k (rest st) = String "."%char t ∧
               (1 ≤ j ≤ span is_digit t)%nat ∧ rest st' = drop j t).
Proof.
  unfold number. cbn [run].
  intros (st1 & Hst' & (k & Hk & ->)%run_rep)%list_elem_of_bind.
  apply elem_of_app in Hst' as [Hfrac| ->%list_elem_of_singleton].
  - apply list_elem_of_bind in Hfrac as (st2 & Hst' & [Hg Hp]%run_lit).
    apply run_rep in Hst' as (j & Hj & ->). simpl in *.
    split; [done|]. exists k. split; [done|]. right.
    apply strip_prefix_point in Hp. rewrite Hp. eauto.
  - split; [done|]. exists k. split; [done|]. by left.
Qed.

(** Whatever the group [(\d+(?:\.\d+)?)] captures, [float] accepts. *)
Lemma run_group_number st st' :
  st' ∈ run (Group number) st →
  ∃ g, group1 st' = Some g ∧ is_Some (float g).
Proof.
  cbn [run]. intros (st1 & -> & [_ (k & Hk & Hrest)]%run_number)%list_elem_of_fmap.
  eexists. split; [done|]. simpl.
  pose proof (span_le is_digit (rest st)).
  destruct Hrest as [-> | (t & j & Hd & Hj & ->)].
  - rewrite length_drop by lia.
    replace (String.length (rest st) - (String.length (rest st) - k))%nat
      with k by lia.
    by apply float_digits.
  - pose proof (span_le is_digit t).
    pose proof (length_drop k (rest st)) as Hl. rewrite Hd in Hl. simpl in Hl.
    rewrite length_drop by lia.
    replace (String.length (rest st) - (String.length t - j))%nat
      with (k + (1 + j))%nat by lia.
    by eapply float_digits_point.
Qed.

Lemma search_from_run r s m :
  search_from r s = Some m → ∃ s', m ∈ run r (MState s' None).
Proof.
  induction s as [|c s IH]; simpl.
  - destruct (run r (MState "" None)) as [|m' l] eqn:Hr; [done|].
    intros [= ->]. exists "". rewrite Hr. by left.
  - destruct (run r (MState (String c s) None)) as [|m' l] eqn:Hr; [done|].
    intros [= ->]. exists (String c s). rewrite Hr. by left.
Qed.

(** The [except ValueError] branches of the extractor are never taken: the
    text handed to [float] is always a decimal literal. *)
Lemma captured_numbers_parse :
  (∀ s g, search score_re s = Some g → is_Some (float g)) ∧
  (∀ content n, search number_re content = Some n → is_Some (float n)).
Proof.
  split.
  - intros s g. unfold search.
    destruct (search_from score_re s) as [m|] eqn:Hm; [|done]. simpl. intros Hg.
    apply search_from_run in Hm as [s' Hm]. unfold score_re in Hm. cbn [run] in Hm.
    apply list_elem_of_bind in Hm as (st1 & Hm & _).
    apply list_elem_of_bind in Hm as (st2 & Hm & Hst2).
    apply (run_group_number st1 st2) in Hst2 as (g' & Hg' & Hf).
    apply run_lit in Hm as [Hm _]. congruence.
  - intros content n. unfold search.
    destruct (search_from number_re content) as [m|] eqn:Hm; [|done]. simpl.
    intros Hn. apply search_from_run in Hm as [s' Hm].
    apply run_group_number in Hm as (g' & Hg' & Hf). congruence.
Qed.

End ReFacts.

Section LlmAnalyzerFacts.
Import Re LlmAnalyzer.

Lemma extract_score_insert s (m : gmap string value) :
  extract_score s m = <["score" := score_value (search score_re s)]> m.
Proof. unfold extract_score, score_value. by destruct (search score_re s). Qed.

Lemma extract_fit_insert tag s (m : gmap string value) :
  extract_fit tag s m =
  <[tag +:+ "_text" := text_value (search (section_re tag) s)]>
    (<[tag := fit_value (search (section_re tag) s)]> m).
Proof.
  unfold extract_fit, fit_value, text_value.
  destruct (search (section_re tag) s) as [g|]; [|done].
  by destruct (search number_re (strip g)).
Qed.

Lemma extract_text_insert tag s (m : gmap string value) :
  extract_text tag s m = <[tag := text_value (search (section_re tag) s)]> m.
Proof. unfold extract_text, text_value. by destruct (search (section_re tag) s). Qed.

Lemma extract_recommendation_insert s (m : gmap string value) :
  extract_recommendation s m =
  <["recommendation_code" := code_value (search (section_re "recommendation") s)]>
    (<["recommendation" := text_value (search (section_re "recommendation") s)]> m).
Proof.
  unfold extract_recommendation, code_value, text_value.
  by destruct (search (section_re "recommendation") s).
Qed.

Lemma extract_as_fold s :
  extract_response_sections s = foldl (λ sections tag, block tag s sections) ∅ searched_tags.
Proof. reflexivity. Qed.

Lemma extract_inserts s :
  extract_response_sections s =
  <["summary" := text_value (search (section_re "summary") s)]>
  (<["recommendation_code" := code_value (search (section_re "recommendation") s)]>
  (<["recommendation" := text_value (search (section_re "recommendation") s)]>
  (<["talking_points" := text_value (search (section_re "talking_points") s)]>
  (<["experience_positioning" :=
       text_value (search (section_re "experience_positioning") s)]>
  (<["cv_tailoring" := text_value (search (section_re "cv_tailoring") s)]>
  (<["critical_gaps" := text_value (search (section_re "critical_gaps") s)]>
  (<["key_strengths" := text_value (search (section_re "key_strengths") s)]>
  (<["ats_fit_text" := text_value (search (section_re "ats_fit") s)]>
  (<["ats_fit" := fit_value (search (section_re "ats_fit") s)]>
  (<["human_fit_text" := text_value (search (section_re "human_fit") s)]>
  (<["human_fit" := fit_value (search (section_re "human_fit") s)]>
  (<["score" := score_value (search score_re s)]> ∅)))))))))))).
Proof.
  unfold extract_response_sections.
  by rewrite extract_score_insert, !extract_fit_insert, !extract_text_insert,
    extract_recommendation_insert.
Qed.

Lemma recommendation_code_spec text :
  recommendation_code text = spec_recommendation_code text.
Proof.
  unfold recommendation_code, spec_recommendation_code, keywords. simpl.
  destruct (startswith (upper text) "PURSUE"); [done|].
  destruct (startswith (upper text) "CONSIDER"); [done|].
  destruct (startswith (upper text) "AVOID"); [done|].
  destruct (contains "PURSUE" (upper text)); [done|].
  destruct (contains "CONSIDER" (upper text)); [done|].
  by destruct (contains "AVOID" (upper text)).
Qed.

Ltac lookup_field :=
  rewrite extract_inserts;
  repeat (rewrite lookup_insert_ne by discriminate);
  rewrite lookup_insert_eq.

(** C3: for every input the returned dictionary has the thirteen fields, and
    on the empty text the three numeric fields are 0.0, the nine text fields
    are empty and the recommendation code is REVIEW. *)
Theorem extract_complete_with_defaults :
  (∀ s, dom (extract_response_sections s) =
        list_to_set ["score"; "human_fit"; "human_fit_text"; "ats_fit";
                     "ats_fit_text"; "key_strengths"; "critical_gaps";
                     "cv_tailoring"; "experience_positioning"; "talking_points";
                     "recommendation"; "recommendation_code"; "summary"]) ∧
  extract_response_sections "" =
    list_to_map [("score", VFloat 0%Q); ("human_fit", VFloat 0%Q);
                 ("ats_fit", VFloat 0%Q);
                 ("human_fit_text", VText ""); ("ats_fit_text", VText "");
                 ("key_strengths", VText ""); ("critical_gaps", VText "");
                 ("cv_tailoring", VText ""); ("experience_positioning", VText "");
                 ("talking_points", VText ""); ("recommendation", VText "");
                 ("summary", VText "");
                 ("recommendation_code", VText "REVIEW")].
Proof.
  split.
  - intros s. rewrite extract_inserts, !dom_insert_L, dom_empty_L. simpl.
    set_solver.
  - vm_compute. reflexivity.
Qed.

(** C4: the recommendation code is REVIEW when the recommendation pattern
    does not match; when it matches, it is the keyword among PURSUE,
    CONSIDER, AVOID that the captured text starts with, else the first of
    them in that order that occurs in the text, else REVIEW, case being
    ignored. A section "consider later, avoid now" gives CONSIDER, and so
    does "Maybe avoid; or Consider", where AVOID comes first in the text. *)
Theorem recommendation_code_rule :
  (∀ s, extract_response_sections s !! "recommendation_code" =
        Some (VText (match search (section_re "recommendation") s with
                     | Some g => spec_recommendation_code (strip g)
                     | None => "REVIEW"
                     end))) ∧
  extract_response_sections
    "<recommendation>consider later, avoid now</recommendation>"
    !! "recommendation_code" = Some (VText "CONSIDER") ∧
  extract_response_sections
    "<recommendation>Maybe avoid; or Consider</recommendation>"
    !! "recommendation_code" = Some (VText "CONSIDER").
Proof.
  split; [|split; vm_compute; reflexivity].
  intros s. lookup_field. unfold code_value.
  destruct (search (section_re "recommendation") s); [|done].
  by rewrite recommendation_code_spec.
Qed.

(** C5, as the code has it: the extractor searches ten tags, the score tag
    and nine labelled sections, one block per tag; and each field of the
    result is a function of what the search for its own tag finds in the
    input, whatever the other tags are. *)
Theorem extract_ten_independent_tags :
  length searched_tags = 10%nat ∧
  NoDup searched_tags ∧
  (∀ s, extract_response_sections s =
        foldl (λ sections tag, block tag s sections) ∅ searched_tags) ∧
  Forall (λ tag,
    Forall (λ key, ∀ s,
      extract_response_sections s !! key =
      Some (field_value tag key (search (pattern_of tag) s)))
    (fields_of tag)) searched_tags.
Proof.
  split; [done|]. split; [by apply (bool_decide_unpack _)|].
  split; [done|].
  unfold searched_tags.
  repeat first
    [ apply Forall_nil_2
    | apply Forall_cons_2
    | match goal with
      | |- Forall _ (fields_of ?t) =>
          let l := eval vm_compute in (fields_of t) in
          change (fields_of t) with l
      end ];
    intros s; lookup_field; reflexivity.
Qed.

(** C5 as stated fails: the tags searched are not eleven. *)
Lemma searched_tags_not_eleven : length searched_tags ≠ 11%nat.
Proof. vm_compute. discriminate. Qed.

End LlmAnalyzerFacts.

Section SheetsIntegrationFacts.
Import Py SheetsIntegration.

Lemma index_row_dom (job_data : gmap pyval entry) i row :
  dom (index_row job_data (i, row)) =
  dom job_data ∪ list_to_set (remote_keys [row]).
Proof.
  unfold index_row, remote_keys. simpl.
  destruct (row !! 6%nat) as [k|] eqn:Hk; simpl.
  - apply lookup_lt_Some in Hk.
    destruct (decide (7 ≤ length row)%nat); [|lia].
    rewrite dom_insert_L. set_solver.
  - destruct (decide (7 ≤ length row)%nat); set_solver.
Qed.

Lemma foldl_index_dom (f : nat → nat) rows (job_data : gmap pyval entry) :
  dom (foldl index_row job_data (imap (λ i row, (f i, row)) rows)) =
  dom job_data ∪ list_to_set (remote_keys rows).
Proof.
  revert f job_data. induction rows as [|row rows IH]; intros f job_data; simpl.
  - set_solver.
  - change (imap ((λ i r, (f i, r)) ∘ S) rows)
      with (imap (λ i r, (f (S i), r)) rows).
    rewrite IH, index_row_dom. unfold remote_keys. simpl.
    destruct (row !! 6%nat); simpl; set_solver.
Qed.

Lemma existing_keys w :
  dom (get_existing_job_data w) =
  if service w GetExistingJobData && negb (get_raises w)
  then list_to_set (remote_keys (values w)) else ∅.
Proof.
  unfold get_existing_job_data.
  destruct (service w GetExistingJobData); [|apply dom_empty_L].
  destruct (get_raises w); [apply dom_empty_L|]. cbn [negb andb].
  change (imap pair (values w)) with (imap (λ i r, (id i, r)) (values w)).
  rewrite foldl_index_dom, dom_empty_L. set_solver.
Qed.

Lemma remote_keys_long rows :
  remote_keys rows = remote_keys (filter (λ row, (7 ≤ length row)%nat) rows).
Proof.
  unfold remote_keys. induction rows as [|row rows IH]; [done|].
  rewrite filter_cons. simpl.
  destruct (row !! 6%nat) as [k|] eqn:Hk.
  - pose proof (lookup_lt_Some _ _ _ Hk).
    destruct (decide (7 ≤ length row)%nat); [|lia].
    simpl. rewrite Hk. f_equal. exact IH.
  - destruct (decide (7 ≤ length row)%nat); simpl; rewrite ?Hk; exact IH.
Qed.

Lemma queue_row_short ex base force q row :
  ¬ (7 ≤ length row)%nat → queue_row ex base force q row = q.
Proof. intros H. unfold queue_row. by destruct (decide (7 ≤ length row)%nat). Qed.

Lemma foldl_queue_filter ex base force rows q :
  foldl (queue_row ex base force) q rows =
  foldl (queue_row ex base force) q (filter (λ row, (7 ≤ length row)%nat) rows).
Proof.
  revert q. induction rows as [|row rows IH]; intros q; [done|].
  rewrite filter_cons. simpl.
  destruct (decide (7 ≤ length row)%nat) as [Hl|Hl]; simpl.
  - apply IH.
  - by rewrite queue_row_short.
Qed.

Lemma queue_row_long ex base force q row :
  long_queues q → long_queues (queue_row ex base force q row).
Proof.
  intros [Hf Hu]. unfold queue_row.
  destruct (decide (7 ≤ length row)%nat); [|done].
  destruct (row !! 6%nat); [|done].
  destruct (ex !! _); [destruct force; [|done]|]; split; simpl; try done.
  - apply Forall_app. split; [done|]. repeat constructor. done.
  - apply Forall_app. split; [done|]. by repeat constructor.
Qed.

Lemma foldl_queue_long ex base force rows q :
  long_queues q → long_queues (foldl (queue_row ex base force) q rows).
Proof.
  revert q. induction rows as [|row rows IH]; intros q Hq; [done|].
  simpl. apply IH. by apply queue_row_long.
Qed.

Lemma foldl_queue_duplicates (ex : gmap pyval entry) base rows q :
  Forall (λ row, match row !! 6%nat with
                 | Some k => k ∈ dom ex
                 | None => True
                 end) rows →
  foldl (queue_row ex base false) q rows = q.
Proof.
  induction 1 as [|row rows Hrow _ IH]; [done|]. simpl.
  assert (queue_row ex base false q row = q) as ->; [|done].
  unfold queue_row. destruct (decide (7 ≤ length row)%nat); [|done].
  destruct (row !! 6%nat) as [k|]; [|done].
  apply elem_of_dom in Hrow as [e ->]. done.
Qed.

(** C7, amended: when [append_to_sheet] gets a client, the read of
    [get_existing_job_data] goes through (it gets a client too and
    [values().get] does not raise) and the key in column 6 of every input
    row is found in column 6 of a remote row, [append_to_sheet] without
    [force_update] returns [True] and sends no write request, neither an
    append nor an update, so the sheet stays as it is; and with no input row
    it returns [True] whatever the remote side is. *)
Theorem append_all_duplicates w sheet_id sheet_range rows :
  service w AppendToSheet = true →
  service w GetExistingJobData = true →
  get_raises w = false →
  Forall (key_present w) rows →
  append_to_sheet w sheet_id sheet_range rows false = (true, []) ∧
  (∀ w' force, append_to_sheet w' sheet_id sheet_range [] force = (true, [])).
Proof.
  intros Hs Hr Hg Hrows. split; [|done].
  unfold append_to_sheet. destruct (nonempty rows); [|done]. simpl.
  rewrite Hs. simpl.
  rewrite foldl_queue_duplicates; [done|].
  eapply Forall_impl; [exact Hrows|]. intros row Hrow. unfold key_present in Hrow.
  destruct (row !! 6%nat) as [k|]; [|done].
  rewrite existing_keys, Hr, Hg. by apply elem_of_list_to_set.
Qed.

Lemma append_all_duplicates_witness :
  let w := reachable
    [[PyStr "2024-05-01T09:00:00"; PyStr "Data Engineer"; PyStr "Acme"; PyInt 8;
      PyStr "Good match"; PyStr "PURSUE"; PyStr "PURSUE - apply now"];
     [PyStr "2024-05-01T09:05:00"; PyStr "Analyst"]] in
  let rows :=
    [[PyStr "2024-05-02T09:00:00"; PyStr "Data Engineer II"; PyStr "Acme"; PyInt 9;
      PyStr "Better match"; PyStr "PURSUE"; PyStr "PURSUE - apply now"];
     [PyStr "2024-05-02T09:05:00"; PyStr "Analyst"; PyStr "Initech"]] in
  append_to_sheet w "sheet-1" "Sheet1!A2:Z" rows false = (true, []) ∧
  (∀ w' force, append_to_sheet w' "sheet-1" "Sheet1!A2:Z" [] force = (true, [])).
Proof.
  intros w rows.
  apply (append_all_duplicates w "sheet-1" "Sheet1!A2:Z" rows).
  - reflexivity.
  - reflexivity.
  - reflexivity.
  - apply (bool_decide_unpack _). vm_compute. reflexivity.
Defined.

(** C7 as stated fails on two remote sides that hold the key of the one
    input row. When [values().get] raises, [get_existing_job_data] returns
    the empty dictionary, and the row is appended again, with [True]
    returned; when [append_to_sheet] gets no client, nothing is sent and
    [False] is returned. *)
Lemma append_duplicates_unread :
  let held :=
    [[PyStr "2024-05-01T09:00:00"; PyStr "Data Engineer"; PyStr "Acme"; PyInt 8;
      PyStr "Good match"; PyStr "PURSUE"; PyStr "PURSUE - apply now"]] in
  let rows :=
    [[PyStr "2024-05-02T09:00:00"; PyStr "Data Engineer II"; PyStr "Acme"; PyInt 9;
      PyStr "Better match"; PyStr "PURSUE"; PyStr "PURSUE - apply now"]] in
  let unread := Remote (λ _, true) held true false false false in
  let signed_out := Remote (λ _, false) held false false false false in
  Forall (key_present unread) rows ∧
  append_to_sheet unread "sheet-1" "Sheet1!A2:Z" rows false =
    (true, [Append "sheet-1" "Sheet1!A2:Z" rows]) ∧
  Forall (key_present signed_out) rows ∧
  append_to_sheet signed_out "sheet-1" "Sheet1!A2:Z" rows false = (false, []).
Proof.
  intros held rows unread signed_out.
  split; [apply (bool_decide_unpack _); vm_compute; reflexivity|].
  split; [vm_compute; reflexivity|].
  split; [apply (bool_decide_unpack _); vm_compute; reflexivity|].
  vm_compute. reflexivity.
Qed.

(** C10: the write requests of [append_to_sheet] are those it sends when the
    input rows of fewer than seven cells are left out; every row it appends
    or updates has seven cells or more; a call whose only input row is short
    writes nothing, with and without [force_update], and returns [True]
    whenever it gets a client, whatever the other calls would do; and the
    keys of [get_existing_job_data] come from the remote rows of seven cells
    or more, and there are none when the read fails. *)
Theorem short_rows_dropped w sheet_id sheet_range rows force :
  (append_to_sheet w sheet_id sheet_range rows force).2 =
    (append_to_sheet w sheet_id sheet_range
       (filter (λ row, (7 ≤ length row)%nat) rows) force).2 ∧
  Forall (λ req, Forall (λ row, (7 ≤ length row)%nat) (rows_written req))
    (append_to_sheet w sheet_id sheet_range rows force).2 ∧
  append_to_sheet w sheet_id sheet_range
    [[PyStr "2024-05-02T09:05:00"; PyStr "Analyst"; PyStr "Initech"]] force
    = (service w AppendToSheet, []) ∧
  dom (get_existing_job_data w) =
    (if service w GetExistingJobData && negb (get_raises w)
     then list_to_set (remote_keys (filter (λ row, (7 ≤ length row)%nat) (values w)))
     else ∅).
Proof.
  split; [|split; [|split]].
  - unfold append_to_sheet.
    rewrite <- foldl_queue_filter.
    destruct rows as [|row rows]; [done|].
    destruct (filter _ (row :: rows)) as [|row' rows'] eqn:Hf; cbn [nonempty negb].
    + destruct (service w AppendToSheet); [|done]. cbn [negb].
      rewrite (foldl_queue_filter _ _ _ (row :: rows)), Hf. simpl.
      by rewrite andb_false_r.
    + by destruct (service w AppendToSheet).
  - unfold append_to_sheet. destruct (nonempty rows); [|by constructor].
    destruct (service w AppendToSheet); [|by constructor]. cbn [negb].
    pose proof (foldl_queue_long (get_existing_job_data w) (base_range sheet_range)
                  force rows (Queues [] [])) as [Hf Hu]; [by split|].
    set (q := foldl _ _ rows) in *.
    assert (Hb : Forall (λ req, Forall (λ row, (7 ≤ length row)%nat) (rows_written req))
                   (if force && nonempty (updates q)
                    then [BatchUpdate sheet_id (updates q)] else [])).
    { destruct (force && nonempty _); [|by constructor].
      repeat constructor. simpl. by apply Forall_bind. }
    assert (Ha : Forall (λ req, Forall (λ row, (7 ≤ length row)%nat) (rows_written req))
                   (if nonempty (filtered_values q)
                    then [Append sheet_id sheet_range (filtered_values q)] else [])).
    { destruct (nonempty (filtered_values _)); [|by constructor].
      by repeat constructor. }
    cbv zeta.
    destruct (nonempty _ && batch_update_raises w); [done|].
    destruct (nonempty _ && append_raises w); cbn [snd];
      apply Forall_app; by split.
  - unfold append_to_sheet. cbn [nonempty negb].
    destruct (service w AppendToSheet); [|done]. cbn [negb].
    by destruct force.
  - rewrite existing_keys. by rewrite <- remote_keys_long.
Qed.

End SheetsIntegrationFacts.

Section BatchFacts.
Import LlmAnalyzer.

Lemma insert_by_score_perm x l : insert_by_score x l ≡ₚ x :: l.
Proof.
  induction l as [|y l IH]; [done|]. simpl.
  destruct (Qlt_le_dec (match_score x) (match_score y)); [|done].
  rewrite IH. apply Permutation_swap.
Qed.

Lemma sort_by_score_perm l : sort_by_score l ≡ₚ l.
Proof.
  induction l as [|x l IH]; [done|]. simpl.
  by rewrite insert_by_score_perm, IH.
Qed.

Lemma insert_by_score_sorted x l :
  StronglySorted score_ge l → StronglySorted score_ge (insert_by_score x l).
Proof.
  induction 1 as [|y l Hl IH Hy]; simpl; [by repeat constructor|].
  destruct (Qlt_le_dec (match_score x) (match_score y)) as [Hlt|Hle].
  - constructor; [done|]. rewrite insert_by_score_perm.
    constructor; [|done]. unfold score_ge. by apply Qlt_le_weak.
  - constructor; [by constructor|]. constructor; [done|].
    eapply Forall_impl; [exact Hy|]. unfold score_ge. intros z Hz.
    by eapply Qle_trans.
Qed.

Lemma sort_by_score_sorted l : StronglySorted score_ge (sort_by_score l).
Proof.
  induction l as [|x l IH]; simpl; [constructor|]. by apply insert_by_score_sorted.
Qed.

(** C8: whatever the order in which the analysis tasks completed, the list
    [analyze_jobs_batch] returns is in descending order of match score, and
    it holds the collected results, each once. *)
Theorem analyze_jobs_batch_sorted cv_parsed completed :
  StronglySorted score_ge (analyze_jobs_batch cv_parsed completed) ∧
  analyze_jobs_batch cv_parsed completed ≡ₚ
    (if cv_parsed then collect completed else []).
Proof.
  unfold analyze_jobs_batch. destruct cv_parsed.
  - split; [apply sort_by_score_sorted | apply sort_by_score_perm].
  - split; [constructor | done].
Qed.

End BatchFacts.

(** ** Further properties of scripts/job_database.py *)

Section JobDatabaseMore.
Import Py JobDatabase.

Lemma set_last_checked_twice d r :
  set_last_checked d (set_last_checked d r) = set_last_checked d r.
Proof. done. Qed.

Lemma upsert_one_table d st job id :
  st_jobs (upsert_one d st job) !! id =
  if decide (identifier job = id ∧ id ≠ "") then
    Some (match st_jobs st !! id with
          | Some r => set_last_checked d r
          | None => row_of_listing d job
          end)
  else st_jobs st !! id.
Proof.
  unfold upsert_one. fold (identifier job).
  destruct (decide (identifier job = "")) as [He|Hne].
  - rewrite decide_False; [done|]. intros [<- ?]. done.
  - destruct (decide (identifier job = id)) as [<-|Hk].
    + rewrite decide_True by done.
      destruct (st_jobs st !! identifier job); cbn [st_jobs];
        by rewrite lookup_insert_eq.
    + rewrite decide_False by (by intros [? _]).
      destruct (st_jobs st !! identifier job); cbn [st_jobs];
        by rewrite lookup_insert_ne.
Qed.

Lemma foldl_upsert_table d jobs st id :
  st_jobs (foldl (upsert_one d) st jobs) !! id =
  if decide (id = "") then st_jobs st !! id
  else
    match st_jobs st !! id with
    | Some r =>
        Some (if decide (id ∈ identifier <$> jobs) then set_last_checked d r else r)
    | None =>
        row_of_listing d <$> List.find (λ job, bool_decide (identifier job = id)) jobs
    end.
Proof.
  revert st. induction jobs as [|job jobs IH]; intros st.
  - cbn [foldl fmap list_fmap List.find].
    destruct (decide (id = "")); [done|].
    destruct (st_jobs st !! id); [|done].
    destruct (decide (id ∈ [])) as [?%elem_of_nil|]; done.
  - cbn [foldl]. rewrite IH, upsert_one_table. clear IH.
    destruct (decide (id = "")) as [->|Hid].
    { destruct (decide (identifier job = "" ∧ "" ≠ "")) as [[_ ?]|]; done. }
    cbn [fmap list_fmap List.find].
    destruct (decide (identifier job = id ∧ id ≠ "")) as [[Hj _]|Hj].
    + rewrite bool_decide_eq_true_2 by done.
      destruct (decide (id ∈ identifier job :: (identifier <$> jobs))) as [_|Hn];
        [|exfalso; apply Hn; rewrite Hj; by left].
      destruct (st_jobs st !! id) as [r|]; simpl;
        by destruct (decide (id ∈ _)).
    + assert (identifier job ≠ id) by naive_solver.
      rewrite bool_decide_eq_false_2 by done.
      destruct (st_jobs st !! id) as [r|]; [|done].
      do 2 f_equal. apply decide_ext. rewrite elem_of_cons. naive_solver.
Qed.

(** The table after [add_jobs_to_database], row by row: the row of a stored
    listing that occurs in the batch gets the current date as last-checked
    date and is otherwise kept, processed flag included; a stored listing
    that does not occur is untouched; a listing not stored before gets the
    row made from its first occurrence in the batch; nothing is ever stored
    under the empty identifier. *)
Theorem add_jobs_table d jobs (tbl : gmap string job_row) id :
  st_jobs (add_jobs_to_database d jobs tbl) !! id =
  if decide (id = "") then tbl !! id
  else
    match tbl !! id with
    | Some r =>
        Some (if decide (id ∈ identifier <$> jobs) then set_last_checked d r else r)
    | None =>
        row_of_listing d <$> List.find (λ job, bool_decide (identifier job = id)) jobs
    end.
Proof. apply (foldl_upsert_table d jobs (UpsertState tbl 0 0)). Qed.

Lemma upsert_one_counts d st job :
  let st' := upsert_one d st job in
  Z.of_nat (size (st_jobs st')) - new_count st' =
    Z.of_nat (size (st_jobs st)) - new_count st ∧
  new_count st' + updated_count st' =
    new_count st + updated_count st + (if decide (identifier job = "") then 0 else 1) ∧
  new_count st ≤ new_count st' ∧ updated_count st ≤ updated_count st'.
Proof.
  unfold upsert_one. fold (identifier job).
  destruct (decide (identifier job = "")); [simpl; lia|].
  destruct (st_jobs st !! identifier job) as [r|] eqn:Hl; cbn [st_jobs new_count updated_count].
  - rewrite map_size_insert_Some by done. lia.
  - rewrite map_size_insert_None by done. lia.
Qed.

Lemma foldl_upsert_counts d jobs st :
  let st' := foldl (upsert_one d) st jobs in
  Z.of_nat (size (st_jobs st')) - new_count st' =
    Z.of_nat (size (st_jobs st)) - new_count st ∧
  new_count st' + updated_count st' =
    new_count st + updated_count st +
    Z.of_nat (length (filter (λ job, identifier job ≠ "") jobs)) ∧
  new_count st ≤ new_count st' ∧ updated_count st ≤ updated_count st'.
Proof.
  revert st. induction jobs as [|job jobs IH]; intros st; cbn [foldl].
  - simpl. lia.
  - specialize (IH (upsert_one d st job)).
    pose proof (upsert_one_counts d st job) as H1. cbv zeta in *.
    rewrite filter_cons.
    destruct (decide (identifier job = "")), (decide (identifier job ≠ ""));
      try done; simpl; lia.
Qed.

(** The counters [add_jobs_to_database] returns: [new] is the number of rows
    the table has gained, and [new] and [updated] together count the
    listings of the batch that have a non-empty identifier, repeated ones
    included. *)
Theorem add_jobs_counts d jobs (tbl : gmap string job_row) :
  let st := add_jobs_to_database d jobs tbl in
  Z.of_nat (size (st_jobs st)) = Z.of_nat (size tbl) + new_count st ∧
  new_count st + updated_count st =
    Z.of_nat (length (filter (λ job, identifier job ≠ "") jobs)) ∧
  0 ≤ new_count st ∧ 0 ≤ updated_count st.
Proof.
  pose proof (foldl_upsert_counts d jobs (UpsertState tbl 0 0)) as H.
  cbv zeta in *. unfold add_jobs_to_database. simpl in H. lia.
Qed.

Lemma size_list_to_set_le (l : list string) :
  (size (list_to_set l : gset string) ≤ length l)%nat.
Proof.
  induction l as [|x l IH]; [by rewrite list_to_set_nil, size_empty|].
  rewrite list_to_set_cons, size_union_alt, size_singleton.
  assert (size ((list_to_set l : gset string) ∖ {[x]}) ≤ size (list_to_set l : gset string))%nat
    by (apply subseteq_size; set_solver).
  simpl. lia.
Qed.

Lemma new_count_unseen d jobs (tbl : gmap string job_row) :
  new_count (add_jobs_to_database d jobs tbl) =
  Z.of_nat (size ((list_to_set (filter (λ i, i ≠ "") (identifier <$> jobs))
                   : gset string) ∖ dom tbl)).
Proof.
  pose proof (foldl_upsert_counts d jobs (UpsertState tbl 0 0)) as (Hs & _).
  pose proof (foldl_upsert_dom d jobs (UpsertState tbl 0 0)) as Hd.
  cbn [st_jobs new_count] in *. unfold add_jobs_to_database.
  rewrite <- !size_dom, Hd, size_union_alt in Hs. lia.
Qed.

(** The counter [new] against [filter_new_jobs], which the pipeline calls
    on the same batch just before: it is the number of distinct non-empty
    identifiers among the listings [filter_new_jobs] lets through, so
    listings without identifier and repeated listings are passed on as new
    but not counted as such. *)
Theorem new_count_is_distinct_unseen d jobs (tbl : gmap string job_row) :
  new_count (add_jobs_to_database d jobs tbl) =
  Z.of_nat (size (list_to_set (filter (λ i, i ≠ "")
                    (identifier <$> filter_new_jobs jobs tbl)) : gset string)) ∧
  new_count (add_jobs_to_database d jobs tbl) ≤
  Z.of_nat (length (filter_new_jobs jobs tbl)).
Proof.
  rewrite new_count_unseen.
  assert (Heq : (list_to_set (filter (λ i, i ≠ "") (identifier <$> jobs)) : gset string)
                ∖ dom tbl =
          list_to_set (filter (λ i, i ≠ "") (identifier <$> filter_new_jobs jobs tbl))).
  { apply set_eq. intros i. unfold filter_new_jobs, get_known_job_ids.
    rewrite elem_of_difference, !elem_of_list_to_set, !list_elem_of_filter,
      !list_elem_of_fmap.
    setoid_rewrite list_elem_of_filter. fold identifier. naive_solver. }
  rewrite Heq. split; [done|].
  apply inj_le. etrans; [apply size_list_to_set_le|].
  etrans; [apply length_filter|]. by rewrite length_fmap.
Qed.

(** Adding the same batch a second time, at any date, reports no new
    listing, reports every listing with an identifier as updated, and leaves
    the set of stored identifiers as it is. *)
Theorem add_jobs_again d1 d2 jobs (tbl : gmap string job_row) :
  let tbl1 := st_jobs (add_jobs_to_database d1 jobs tbl) in
  let st2 := add_jobs_to_database d2 jobs tbl1 in
  new_count st2 = 0 ∧
  updated_count st2 = Z.of_nat (length (filter (λ job, identifier job ≠ "") jobs)) ∧
  dom (st_jobs st2) = dom tbl1.
Proof.
  cbv zeta.
  pose proof (foldl_upsert_counts d2 jobs
    (UpsertState (st_jobs (add_jobs_to_database d1 jobs tbl)) 0 0)) as (_ & Hc & _).
  pose proof (new_count_unseen d2 jobs (st_jobs (add_jobs_to_database d1 jobs tbl)))
    as Hn.
  assert (Hd := foldl_upsert_dom d1 jobs (UpsertState tbl 0 0)).
  assert (Hd2 := foldl_upsert_dom d2 jobs
    (UpsertState (st_jobs (add_jobs_to_database d1 jobs tbl)) 0 0)).
  cbn [st_jobs new_count updated_count] in *.
  fold (add_jobs_to_database d1 jobs tbl) in Hd.
  fold (add_jobs_to_database d2 jobs (st_jobs (add_jobs_to_database d1 jobs tbl)))
    in Hc, Hd2.
  assert (He : (list_to_set (filter (λ i, i ≠ "") (identifier <$> jobs)) : gset string)
               ∖ dom (st_jobs (add_jobs_to_database d1 jobs tbl)) = ∅)
    by (rewrite Hd; set_solver).
  rewrite He, size_empty in Hn.
  split; [done|]. split; [lia|]. rewrite Hd2, Hd. set_solver.
Qed.

Lemma set_processed_twice r : set_processed (set_processed r) = set_processed r.
Proof. done. Qed.

Lemma mark_processed_table ids (tbl : gmap string job_row) id :
  (mark_jobs_as_processed ids tbl).1 !! id =
  (λ r, if decide (id ∈ ids) then set_processed r else r) <$> tbl !! id.
Proof.
  unfold mark_jobs_as_processed. destruct ids as [|i ids]; cbn [fst].
  - destruct (tbl !! id); [|done]. simpl.
    by destruct (decide (id ∈ [])) as [?%elem_of_nil|].
  - rewrite map_lookup_imap. by destruct (tbl !! id).
Qed.

Lemma mark_processed_dom ids (tbl : gmap string job_row) :
  dom (mark_jobs_as_processed ids tbl).1 = dom tbl.
Proof.
  apply set_eq. intros id. rewrite !elem_of_dom, mark_processed_table.
  by rewrite fmap_is_Some.
Qed.

Lemma mark_processed_count ids (tbl : gmap string job_row) :
  (mark_jobs_as_processed ids tbl).2 =
  Z.of_nat (size (dom tbl ∩ list_to_set ids)).
Proof.
  unfold mark_jobs_as_processed. destruct ids as [|i ids]; cbn [snd].
  - replace (dom tbl ∩ list_to_set []) with (∅ : gset string) by set_solver.
    by rewrite size_empty.
  - f_equal. rewrite <- size_dom. f_equal. apply dom_filter_L. intros k.
    rewrite elem_of_intersection, elem_of_dom, elem_of_list_to_set.
    unfold is_Some. naive_solver.
Qed.

(** [mark_jobs_as_processed]: a stored row whose identifier is listed gets
    the processed flag and is otherwise kept, every other row is untouched
    and no row is added, so identifiers that are not stored are ignored; the
    returned count is the number of stored identifiers that are listed, each
    counted once; and a second call with the same list changes nothing and
    returns the same count again. *)
Theorem mark_processed_result ids (tbl : gmap string job_row) :
  (∀ id, (mark_jobs_as_processed ids tbl).1 !! id =
         (λ r, if decide (id ∈ ids) then set_processed r else r) <$> tbl !! id) ∧
  (mark_jobs_as_processed ids tbl).2 = Z.of_nat (size (dom tbl ∩ list_to_set ids)) ∧
  mark_jobs_as_processed ids (mark_jobs_as_processed ids tbl).1 =
    mark_jobs_as_processed ids tbl.
Proof.
  split; [apply mark_processed_table|]. split; [apply mark_processed_count|].
  apply injective_projections.
  - apply map_eq. intros id. rewrite !mark_processed_table.
    destruct (tbl !! id) as [r|]; [|done]. simpl.
    by destruct (decide (id ∈ ids)).
  - by rewrite !mark_processed_count, mark_processed_dom.
Qed.

Lemma elem_of_dom_filter {A} (P : string * A → Prop) `{!∀ x, Decision (P x)}
    (m : gmap string A) i :
  i ∈ dom (filter P m) ↔ ∃ x, m !! i = Some x ∧ P (i, x).
Proof.
  rewrite elem_of_dom. unfold is_Some.
  by setoid_rewrite map_lookup_filter_Some.
Qed.

(** [get_recent_job_stats] around [mark_jobs_as_processed]: marking leaves
    the total, the number of recently seen listings and the number of runs
    as they are; the number of processed listings does not go down, is at
    least the count the marking returned and at most the total. *)
Theorem stats_after_mark thr days ids (tbl : gmap string job_row)
    (hist : gmap string run_row) :
  let before := get_recent_job_stats thr days tbl hist in
  let after := get_recent_job_stats thr days (mark_jobs_as_processed ids tbl).1 hist in
  total_jobs after = total_jobs before ∧
  new_jobs_last_days after = new_jobs_last_days before ∧
  scraping_runs_last_days after = scraping_runs_last_days before ∧
  processed_jobs before ≤ processed_jobs after ∧
  (mark_jobs_as_processed ids tbl).2 ≤ processed_jobs after ∧
  processed_jobs after ≤ total_jobs after.
Proof.
  cbv zeta. unfold get_recent_job_stats.
  cbn [total_jobs new_jobs_last_days scraping_runs_last_days processed_jobs].
  rewrite mark_processed_count. rewrite <- !size_dom, mark_processed_dom.
  split; [done|]. split; [|split; [done|]].
  - do 2 f_equal. apply set_eq. intros i. rewrite !elem_of_dom_filter.
    setoid_rewrite mark_processed_table.
    destruct (tbl !! i) as [r|]; simpl; [|naive_solver].
    destruct (decide (i ∈ ids)); naive_solver.
  - split; [|split]; apply inj_le, subseteq_size; intros i.
    + rewrite !elem_of_dom_filter. setoid_rewrite mark_processed_table.
      intros (r & -> & Hr). simpl in *.
      destruct (decide (i ∈ ids)); eexists; (split; [done|]); done.
    + rewrite elem_of_intersection, elem_of_dom, elem_of_list_to_set,
        elem_of_dom_filter.
      setoid_rewrite mark_processed_table.
      intros [[r ->] Hi]. simpl. rewrite decide_True by done. by eexists.
    + rewrite elem_of_dom_filter, elem_of_dom. setoid_rewrite mark_processed_table.
      intros (r & Hr & _). destruct (tbl !! i); [by eexists|done].
Qed.

End JobDatabaseMore.

(** ** Further properties of scripts/llm_analyzer.py: the batch steps *)

Section BatchMore.
Import Py LlmAnalyzer.

Lemma filter_none {A} (P : A → Prop) `{!∀ x, Decision (P x)} (l : list A) :
  Forall (λ x, ¬ P x) l → filter P l = [].
Proof.
  induction 1 as [|x l Hx _ IH]; [done|]. rewrite filter_cons.
  by destruct (decide (P x)).
Qed.

Lemma filter_strongly_sorted {A} (R : relation A) (P : A → Prop)
    `{!∀ x, Decision (P x)} (l : list A) :
  StronglySorted R l → StronglySorted R (filter P l).
Proof.
  induction 1 as [|x l Hl IH Hx]; [constructor|]. rewrite filter_cons.
  destruct (decide (P x)); [|done]. constructor; [done|].
  rewrite Forall_forall in *. intros y [_ Hy]%list_elem_of_filter. by apply Hx.
Qed.

Lemma filter_sorted_prefix thr l :
  StronglySorted score_ge l →
  extract_best_matches l thr = take (length (extract_best_matches l thr)) l.
Proof.
  unfold extract_best_matches.
  induction 1 as [|x l Hl IH Hx]; [done|]. rewrite filter_cons.
  destruct (decide (Qle_bool thr (match_score x) = true)) as [Hle|Hgt].
  - simpl. by rewrite <- IH.
  - assert (filter (λ job, Qle_bool thr (match_score job) = true) l = []) as ->; [|done].
    apply filter_none. rewrite Forall_forall. intros y Hy Hthr.
    apply Hgt. apply Qle_bool_iff. apply Qle_bool_iff in Hthr.
    rewrite Forall_forall in Hx. specialize (Hx y Hy). unfold score_ge in Hx.
    by eapply Qle_trans.
Qed.

(** [extract_best_matches] after [analyze_jobs_batch], as the pipeline calls
    them: the best matches are the first results of the sorted batch, so
    they are in descending order of score too, and each has a score of at
    least the threshold. *)
Theorem best_matches_of_batch cv_parsed completed thr :
  let results := analyze_jobs_batch cv_parsed completed in
  let best := extract_best_matches results thr in
  best = take (length best) results ∧
  StronglySorted score_ge best ∧
  Forall (λ job, (thr <= match_score job)%Q) best.
Proof.
  cbv zeta.
  assert (Hs : StronglySorted score_ge (analyze_jobs_batch cv_parsed completed)).
  { unfold analyze_jobs_batch. destruct cv_parsed; [|constructor].
    apply sort_by_score_sorted. }
  split; [by apply filter_sorted_prefix|]. split.
  - unfold extract_best_matches. by apply filter_strongly_sorted.
  - unfold extract_best_matches. rewrite Forall_forall.
    intros job [Hj _]%list_elem_of_filter. by apply Qle_bool_iff.
Qed.

Lemma insert_by_score_filter q x l :
  filter (λ a, Qeq_bool (match_score a) q = true) (insert_by_score x l) =
  filter (λ a, Qeq_bool (match_score a) q = true) (x :: l).
Proof.
  induction l as [|y l IH]; [done|]. simpl.
  destruct (Qlt_le_dec (match_score x) (match_score y)) as [Hlt|Hle]; [|done].
  rewrite (filter_cons _ y), IH, !(filter_cons _ x), (filter_cons _ y).
  destruct (decide (Qeq_bool (match_score x) q = true)) as [Hx|Hx]; [|done].
  destruct (decide (Qeq_bool (match_score y) q = true)) as [Hy|Hy]; [|done].
  apply Qeq_bool_iff in Hx, Hy. rewrite Hx, Hy in Hlt.
  by apply Qlt_irrefl in Hlt.
Qed.

Lemma sort_by_score_filter q l :
  filter (λ a, Qeq_bool (match_score a) q = true) (sort_by_score l) =
  filter (λ a, Qeq_bool (match_score a) q = true) l.
Proof.
  induction l as [|x l IH]; [done|]. simpl.
  by rewrite insert_by_score_filter, !(filter_cons _ x), IH.
Qed.

(** The sort of [analyze_jobs_batch] is stable: the results that share a
    score come out in the order in which the loop appended them to
    [results], that is the order in which it read them from the [done] sets.
    That order is the iteration order of sets and need not be the order in
    which the tasks finished, so that the place of a result among those of
    its score is not fixed by the listings or by the timing alone. *)
Theorem analyze_jobs_batch_stable completed q :
  filter (λ a, Qeq_bool (match_score a) q = true) (analyze_jobs_batch true completed) =
  filter (λ a, Qeq_bool (match_score a) q = true) (collect completed).
Proof. apply sort_by_score_filter. Qed.

Lemma sort_by_relevance_const l :
  Forall (λ job, relevance job = 1) l → sort_by_relevance l = l.
Proof.
  induction 1 as [|x l Hx Hl IH]; [done|]. simpl. rewrite IH.
  destruct Hl as [|y l Hy _]; [done|]. simpl.
  rewrite decide_False; [done|]. lia.
Qed.

Lemma relevance_assigned (job : gmap string pyval) :
  relevance (<["relevance_score" := PyInt 1]> job) = 1.
Proof. unfold relevance, get. by rewrite lookup_insert_eq. Qed.

(** [prefilter_jobs] with a limit that is not negative: the result is the
    first [max_jobs] of the listings that have a description, in their input
    order and each with relevance score 1, so the sort changes nothing; it
    has at most [max_jobs] elements, and a listing without description (no
    key, [None] or empty text) is never in it. *)
Theorem prefilter_jobs_result (jobs : list (gmap string pyval)) max_jobs :
  0 ≤ max_jobs →
  prefilter_jobs jobs max_jobs =
    take (Z.to_nat max_jobs)
      ((λ job, <["relevance_score" := PyInt 1]> job) <$> filter has_description jobs) ∧
  Z.of_nat (length (prefilter_jobs jobs max_jobs)) ≤ max_jobs ∧
  Forall (λ job, has_description job ∧ job !! "relevance_score" = Some (PyInt 1))
    (prefilter_jobs jobs max_jobs).
Proof.
  intros Hmax.
  assert (Heq : prefilter_jobs jobs max_jobs =
    take (Z.to_nat max_jobs)
      ((λ job, <["relevance_score" := PyInt 1]> job) <$> filter has_description jobs)).
  { unfold prefilter_jobs, slice_to. rewrite decide_True by done.
    rewrite sort_by_relevance_const; [done|].
    rewrite Forall_fmap. apply Forall_true. intros job. apply relevance_assigned. }
  split; [done|]. rewrite Heq. split.
  - rewrite list.length_take. lia.
  - apply Forall_take. rewrite Forall_fmap, Forall_forall.
    intros job [Hd _]%list_elem_of_filter. simpl. split.
    + unfold has_description, get in *. by rewrite lookup_insert_ne.
    + apply lookup_insert_eq.
Qed.

Lemma prefilter_jobs_result_witness :
  let jobs : list (gmap string pyval) :=
    [ {["id" := PyInt 1; "descriptionText" := PyStr "Build data pipelines"]};
      {["id" := PyInt 2; "descriptionText" := PyStr ""]};
      {["id" := PyInt 3]};
      {["id" := PyInt 4; "descriptionText" := PyStr "Lead the team"]};
      {["id" := PyInt 5; "descriptionText" := PyStr "Run operations"]} ] in
  prefilter_jobs jobs 2 =
    take (Z.to_nat 2)
      ((λ job, <["relevance_score" := PyInt 1]> job) <$> filter has_description jobs) ∧
  Z.of_nat (length (prefilter_jobs jobs 2)) ≤ 2 ∧
  Forall (λ job, has_description job ∧ job !! "relevance_score" = Some (PyInt 1))
    (prefilter_jobs jobs 2).
Proof.
  intros jobs. apply (prefilter_jobs_result jobs 2). lia.
Defined.

End BatchMore.

(** ** Further properties of scripts/sheets_integration.py *)

Section SheetsMore.
Import Py SheetsIntegration.

Lemma index_row_short (job_data : gmap pyval entry) i row :
  row !! 6%nat = None → index_row job_data (i, row) = job_data.
Proof.
  intros Hk. unfold index_row. simpl. rewrite Hk.
  by destruct (decide (7 ≤ length row)%nat).
Qed.

Lemma index_row_long (job_data : gmap pyval entry) i row k :
  row !! 6%nat = Some k → index_row job_data (i, row) = <[k := Entry i row]> job_data.
Proof.
  intros Hk. unfold index_row. simpl. rewrite Hk.
  pose proof (lookup_lt_Some _ _ _ Hk).
  destruct (decide (7 ≤ length row)%nat); [done|lia].
Qed.

Lemma foldl_index_last rows k e :
  foldl index_row ∅ (imap pair rows) !! k = Some e →
  rows !! row_index e = Some (data e) ∧
  data e !! 6%nat = Some k ∧
  ∀ j row, (row_index e < j)%nat → rows !! j = Some row → row !! 6%nat ≠ Some k.
Proof.
  revert k e. induction rows as [|x l IH] using rev_ind; intros k e.
  - simpl. by rewrite lookup_empty.
  - rewrite imap_app, foldl_app. cbn [imap foldl]. rewrite Nat.add_0_r.
    destruct (x !! 6%nat) as [kx|] eqn:Hx.
    + rewrite (index_row_long _ _ _ kx) by done.
      destruct (decide (kx = k)) as [->|Hne].
      * rewrite lookup_insert_eq. intros [= <-]. simpl.
        split; [by rewrite lookup_app_r, Nat.sub_diag|]. split; [done|].
        intros j row Hj Hrow. apply lookup_lt_Some in Hrow.
        rewrite length_app in Hrow. simpl in Hrow. lia.
      * rewrite lookup_insert_ne by done. intros He.
        destruct (IH k e He) as (Hd & Hk & Hlast).
        split; [by apply lookup_app_l_Some|]. split; [done|].
        intros j row Hj Hrow.
        destruct (decide (j < length l)%nat) as [Hlt|Hge].
        -- rewrite lookup_app_l in Hrow by done. by eapply Hlast.
        -- rewrite lookup_app_r in Hrow by lia.
           apply list_lookup_singleton_Some in Hrow as [_ <-]. congruence.
    + rewrite index_row_short by done. intros He.
      destruct (IH k e He) as (Hd & Hk & Hlast).
      split; [by apply lookup_app_l_Some|]. split; [done|].
      intros j row Hj Hrow.
      destruct (decide (j < length l)%nat) as [Hlt|Hge].
      * rewrite lookup_app_l in Hrow by done. by eapply Hlast.
      * rewrite lookup_app_r in Hrow by lia.
        apply list_lookup_singleton_Some in Hrow as [_ <-]. congruence.
Qed.

(** The dictionary of [get_existing_job_data]: the entry of a key holds a
    remote row that has the key in column 6 together with its position, and
    no later remote row has that key, so of several remote rows with one key
    the last is the one recorded. *)
Theorem existing_entry_is_last w k e :
  get_existing_job_data w !! k = Some e →
  values w !! row_index e = Some (data e) ∧
  data e !! 6%nat = Some k ∧
  ∀ j row, (row_index e < j)%nat → values w !! j = Some row → row !! 6%nat ≠ Some k.
Proof.
  unfold get_existing_job_data.
  destruct (service w GetExistingJobData); cbn [negb]; [|by rewrite lookup_empty].
  destruct (get_raises w); [by rewrite lookup_empty|].
  apply foldl_index_last.
Qed.

Lemma existing_entry_is_last_witness :
  let w := reachable
    [[PyStr "t1"; PyStr "Engineer"; PyStr "Acme"; PyInt 8; PyStr "s";
      PyStr "PURSUE"; PyStr "PURSUE - strong"];
     [PyStr "t2"; PyStr "Analyst"];
     [PyStr "t3"; PyStr "Engineer II"; PyStr "Acme"; PyInt 9; PyStr "s";
      PyStr "PURSUE"; PyStr "PURSUE - strong"]] in
  let e := Entry 2 [PyStr "t3"; PyStr "Engineer II"; PyStr "Acme"; PyInt 9;
                    PyStr "s"; PyStr "PURSUE"; PyStr "PURSUE - strong"] in
  values w !! row_index e = Some (data e) ∧
  data e !! 6%nat = Some (PyStr "PURSUE - strong") ∧
  ∀ j row, (row_index e < j)%nat → values w !! j = Some row →
           row !! 6%nat ≠ Some (PyStr "PURSUE - strong").
Proof.
  intros w e.
  apply (existing_entry_is_last w (PyStr "PURSUE - strong") e).
  vm_compute. reflexivity.
Defined.

Lemma queue_row_step (ex : gmap pyval entry) base force q row :
  queue_row ex base force q row =
  Queues
    (filtered_values q ++ (if decide (unknown_key ex row) then [row] else []))
    (updates q ++ if force then option_list (update_of ex base row) else []).
Proof.
  destruct (decide (unknown_key ex row)) as [Hu|Hu];
    unfold unknown_key in Hu; unfold queue_row, update_of;
    destruct (row !! 6%nat) as [k|] eqn:Hk; try done.
  - pose proof (lookup_lt_Some _ _ _ Hk).
    destruct (decide (7 ≤ length row)%nat); [|lia].
    simpl. rewrite !Hu. destruct force; simpl; by rewrite ?app_nil_r.
  - pose proof (lookup_lt_Some _ _ _ Hk).
    destruct (decide (7 ≤ length row)%nat); [|lia]. simpl.
    destruct (ex !! k) as [e|]; [|done].
    destruct q, force; simpl; by rewrite ?app_nil_r.
  - destruct (decide (7 ≤ length row)%nat), q, force; simpl; by rewrite ?app_nil_r.
Qed.

Lemma foldl_queue_spec (ex : gmap pyval entry) base force rows q :
  foldl (queue_row ex base force) q rows =
  Queues
    (filtered_values q ++ filter (unknown_key ex) rows)
    (updates q ++ if force then omap (update_of ex base) rows else []).
Proof.
  revert q. induction rows as [|row rows IH]; intros q.
  - simpl. destruct q, force; simpl; by rewrite !app_nil_r.
  - cbn [foldl]. rewrite IH, queue_row_step. clear IH.
    cbn [filtered_values updates]. rewrite filter_cons. cbn [omap list_omap].
    fold (omap (update_of ex base) rows).
    f_equal.
    + rewrite <- app_assoc. by destruct (decide (unknown_key ex row)).
    + rewrite <- app_assoc. destruct force; [|done].
      by destruct (update_of ex base row).
Qed.

Lemma unknown_key_new w row :
  service w GetExistingJobData = true →
  get_raises w = false →
  unknown_key (get_existing_job_data w) row ↔ has_new_key w row.
Proof.
  intros Hs Hg. unfold unknown_key, has_new_key.
  destruct (row !! 6%nat) as [k|]; [|done].
  rewrite <- not_elem_of_dom, existing_keys, Hs, Hg. cbn [andb negb].
  by rewrite elem_of_list_to_set.
Qed.

Lemma unknown_key_unread w row :
  service w GetExistingJobData && negb (get_raises w) = false →
  unknown_key (get_existing_job_data w) row ↔ (7 ≤ length row)%nat.
Proof.
  intros Hr. unfold unknown_key.
  assert (He : get_existing_job_data w = ∅).
  { unfold get_existing_job_data.
    destruct (service w GetExistingJobData); [|done].
    by destruct (get_raises w). }
  rewrite He. destruct (row !! 6%nat) as [k|] eqn:Hk.
  - apply lookup_lt_Some in Hk. rewrite lookup_empty. split; [lia|done].
  - apply lookup_ge_None_1 in Hk. split; [done|lia].
Qed.

(** The rows [append_to_sheet] takes as new: against the remote keys when
    the read went through, and every row of seven cells or more when it
    did not. *)
Lemma filter_unknown_key w (rows : list (list pyval)) :
  filter (unknown_key (get_existing_job_data w)) rows =
  if service w GetExistingJobData && negb (get_raises w)
  then filter (has_new_key w) rows
  else filter (λ row, (7 ≤ length row)%nat) rows.
Proof.
  destruct (service w GetExistingJobData && negb (get_raises w)) eqn:Hr.
  - apply andb_true_iff in Hr as [Hs Hg]. apply negb_true_iff in Hg.
    apply list_filter_iff. intros row. by apply unknown_key_new.
  - apply list_filter_iff. intros row. by apply unknown_key_unread.
Qed.

Lemma long_rows_split (ex : gmap pyval entry) base rows :
  length (filter (λ row, (7 ≤ length row)%nat) rows) =
  (length (filter (unknown_key ex) rows) + length (omap (update_of ex base) rows))%nat.
Proof.
  induction rows as [|row rows IH]; [done|].
  rewrite !filter_cons. cbn [omap list_omap]. fold (omap (update_of ex base) rows).
  destruct (decide (unknown_key ex row)) as [Hu|Hu];
    unfold unknown_key in Hu; unfold update_of at 1;
    destruct (row !! 6%nat) as [k|] eqn:Hk; try done; cbn [mbind option_bind].
  - pose proof (lookup_lt_Some _ _ _ Hk).
    destruct (decide (7 ≤ length row)%nat); [|lia]. rewrite Hu. simpl. lia.
  - pose proof (lookup_lt_Some _ _ _ Hk).
    destruct (decide (7 ≤ length row)%nat); [|lia].
    destruct (ex !! k) as [e|]; [|done]. simpl. lia.
  - pose proof (lookup_ge_None_1 _ _ Hk).
    destruct (decide (7 ≤ length row)%nat); [lia|]. done.
Qed.

(** [append_to_sheet] with a client, by the two lists its loop fills. *)
Lemma append_to_sheet_sent w sheet_id sheet_range
    (rows : list (list pyval)) (force : bool) :
  service w AppendToSheet = true →
  let ex := get_existing_job_data w in
  let new := filter (unknown_key ex) rows in
  let existing :=
    if force then omap (update_of ex (base_range sheet_range)) rows else [] in
  let batch_update := if nonempty existing then [BatchUpdate sheet_id existing] else [] in
  let append := if nonempty new then [Append sheet_id sheet_range new] else [] in
  append_to_sheet w sheet_id sheet_range rows force =
    if nonempty existing && batch_update_raises w then (false, batch_update)
    else if nonempty new && append_raises w then (false, batch_update ++ append)
    else (true, batch_update ++ append).
Proof.
  intros Hs. cbv zeta. unfold append_to_sheet.
  rewrite Hs, foldl_queue_spec. cbn [filtered_values updates app negb].
  destruct rows as [|row rows]; [by destruct force|]. cbn [nonempty negb].
  set (new := filter _ (row :: rows)).
  set (upd := omap _ (row :: rows)).
  destruct force; cbn [andb].
  - destruct upd as [|u upd]; cbn [nonempty andb];
      destruct new as [|r new]; cbn [nonempty andb]; done.
  - destruct new as [|r new]; cbn [nonempty andb]; done.
Qed.

(** [append_to_sheet] with a client, on every outcome of the calls it
    makes. The rows taken as new are the input rows whose key in column 6
    is not the key of a remote row when the read of
    [get_existing_job_data] went through, and all input rows of seven cells
    or more when it did not (no client for it, or [values().get] raised):
    then rows the sheet already holds are appended again. They are kept in
    input order, with and without [force_update], and a new key that occurs
    twice in the input is appended twice. With [force_update] each input row
    whose key is known gives one update, at the position recorded for the
    key plus 2; without it nothing is updated. When [batchUpdate] raises,
    the updates were sent, nothing is appended and the flag is [False];
    when [append] raises the flag is [False]; otherwise it is [True]. Every
    input row of seven cells or more is either new or has a known key. *)
Theorem append_to_sheet_writes w sheet_id sheet_range rows force :
  service w AppendToSheet = true →
  let result := append_to_sheet w sheet_id sheet_range rows force in
  let ex := get_existing_job_data w in
  let new :=
    if service w GetExistingJobData && negb (get_raises w)
    then filter (has_new_key w) rows
    else filter (λ row, (7 ≤ length row)%nat) rows in
  let known := omap (update_of ex (base_range sheet_range)) rows in
  let existing := if force then known else [] in
  let update_fails := nonempty existing && batch_update_raises w in
  let append_fails := nonempty new && append_raises w in
  updated result.2 = existing ∧
  appended result.2 = (if update_fails then [] else new) ∧
  result.1 = negb (update_fails || append_fails) ∧
  length (filter (λ row, (7 ≤ length row)%nat) rows) =
    (length new + length known)%nat.
Proof.
  intros Hs. cbv zeta.
  rewrite <- filter_unknown_key.
  rewrite (append_to_sheet_sent w sheet_id sheet_range rows force Hs). cbv zeta.
  set (new := filter _ rows).
  set (existing := if force then _ else _).
  split; [|split; [|split]]; [| | |apply long_rows_split].
  - unfold updated.
    destruct existing as [|u upd], new as [|r new],
      (batch_update_raises w), (append_raises w); simpl; by rewrite ?app_nil_r.
  - unfold appended.
    destruct existing as [|u upd], new as [|r new],
      (batch_update_raises w), (append_raises w); simpl; by rewrite ?app_nil_r.
  - destruct (nonempty existing && batch_update_raises w); [done|].
    by destruct (nonempty new && append_raises w).
Qed.

Lemma append_to_sheet_writes_witness :
  let w := Remote (λ _, true)
    [[PyStr "t1"; PyStr "Engineer"; PyStr "Acme"; PyInt 8; PyStr "s";
      PyStr "PURSUE"; PyStr "K1"];
     [PyStr "t2"; PyStr "Analyst"]] false false true false in
  let rows :=
    [[PyStr "t3"; PyStr "Engineer"; PyStr "Acme"; PyInt 9; PyStr "s";
      PyStr "PURSUE"; PyStr "K1"];
     [PyStr "t4"; PyStr "Manager"; PyStr "Initech"; PyInt 7; PyStr "s";
      PyStr "CONSIDER"; PyStr "K2"];
     [PyStr "t5"; PyStr "Manager"; PyStr "Initech"; PyInt 7; PyStr "s";
      PyStr "CONSIDER"; PyStr "K2"];
     [PyStr "t6"; PyStr "Short"]] in
  let result := append_to_sheet w "sheet-1" "Job Matches!A2:G" rows true in
  let known :=
    omap (update_of (get_existing_job_data w) (base_range "Job Matches!A2:G")) rows in
  updated result.2 = known ∧
  appended result.2 = [] ∧
  result.1 = false ∧
  length (filter (λ row, (7 ≤ length row)%nat) rows) =
    (length (filter (has_new_key w) rows) + length known)%nat.
Proof.
  intros w rows.
  apply (append_to_sheet_writes w "sheet-1" "Job Matches!A2:G" rows true).
  reflexivity.
Defined.

Lemma writes_of_save w sheet_id sheet_range clock csv_saved results force :
  writes_of (save_analyzed_jobs_to_sheet w sheet_id sheet_range clock csv_saved
               results force).2 =
  (append_to_sheet w sheet_id sheet_range
     (imap (λ i job, sheet_row (clock i) job) results) force).2.
Proof.
  unfold save_analyzed_jobs_to_sheet, writes_of, update_sheet_headers. cbn [snd].
  generalize (append_to_sheet w sheet_id sheet_range
    (imap (λ i job, sheet_row (clock i) job) results) force).2. intros l.
  assert (Hw : ∀ l : list request,
    omap (λ c, match c with Write req => Some req | HeaderUpdate _ _ _ => None end)
         (Write <$> l) = l).
  { intros l'. induction l' as [|r l' IH]; [done|]. simpl. f_equal. exact IH. }
  destruct (service w UpdateSheetHeaders); cbn [negb snd app omap list_omap]; apply Hw.
Qed.

(** [save_analyzed_jobs_to_sheet]: every row it builds has the 26 cells of
    the header, with the recommendation text in column 6 and the job
    identifier in column 8. Since [append_to_sheet] takes column 6 as the
    key, when it gets a client, the read of the remote rows goes through and
    no write raises, a result is appended exactly when its recommendation
    text is in column 6 of no remote row, whatever its job identifier is and
    whatever became of the header update; and the returned flag is then lost
    when the local copy cannot be written, although the sheet has been
    written to. *)
Theorem save_keys_on_recommendation w sheet_id sheet_range clock csv_saved
    (results : list (gmap string pyval)) force :
  service w AppendToSheet = true →
  service w GetExistingJobData = true →
  get_raises w = false →
  batch_update_raises w = false →
  append_raises w = false →
  let rows := imap (λ i job, sheet_row (clock i) job) results in
  let saved := save_analyzed_jobs_to_sheet w sheet_id sheet_range clock csv_saved
                 results force in
  length header = 26%nat ∧
  header !! 6%nat = Some "Recommendation Details" ∧
  header !! 8%nat = Some "Job ID" ∧
  Forall2 (λ job row,
             length row = 26%nat ∧
             row !! 6%nat = Some (get job "recommendation" (PyStr "")) ∧
             row !! 8%nat = Some (get job "job_id" (PyStr "")) ∧
             (has_new_key w row ↔
              get job "recommendation" (PyStr "") ∉ remote_keys (values w)))
          results rows ∧
  appended (writes_of saved.2) = filter (has_new_key w) rows ∧
  saved.1 = csv_saved.
Proof.
  intros Hs Hr Hg Hb Ha. cbv zeta. split; [done|]. split; [done|]. split; [done|]. split.
  - generalize clock. induction results as [|job results IH]; intros c; [constructor|].
    rewrite imap_cons. constructor; [|apply (IH (c ∘ S))].
    split; [done|]. split; [done|]. split; [done|]. done.
  - rewrite writes_of_save. unfold save_analyzed_jobs_to_sheet. cbn [fst].
    rewrite (append_to_sheet_sent w sheet_id sheet_range _ force Hs). cbv zeta.
    rewrite Hb, Ha, !andb_false_r, filter_unknown_key, Hr, Hg. cbn [andb negb fst snd].
    split; [|by destruct csv_saved].
    unfold appended.
    destruct (if force then _ else _), (filter _ _); simpl; by rewrite ?app_nil_r.
Qed.

Lemma save_keys_on_recommendation_witness :
  let w := Remote (λ c, match c with UpdateSheetHeaders => false | _ => true end)
    [[PyStr "t1"; PyStr "Engineer"; PyStr "Acme"; PyInt 8; PyStr "s";
      PyStr "PURSUE"; PyStr "PURSUE - strong match"; PyStr "u1"; PyStr "4012"]]
    false true false false in
  let results : list (gmap string pyval) :=
    [ {["job_id" := PyStr "5150"; "job_title" := PyStr "Manager";
        "recommendation" := PyStr "PURSUE - strong match"]};
      {["job_id" := PyStr "4012"; "job_title" := PyStr "Engineer";
        "recommendation" := PyStr "CONSIDER - some gaps"]} ] in
  let clock := λ _ : nat, "2024-05-02T09:00:00" in
  let rows := imap (λ i job, sheet_row (clock i) job) results in
  let saved := save_analyzed_jobs_to_sheet w "sheet-1" "Job Matches!A2:G" clock false
                 results false in
  length header = 26%nat ∧
  header !! 6%nat = Some "Recommendation Details" ∧
  header !! 8%nat = Some "Job ID" ∧
  Forall2 (λ job row,
             length row = 26%nat ∧
             row !! 6%nat = Some (get job "recommendation" (PyStr "")) ∧
             row !! 8%nat = Some (get job "job_id" (PyStr "")) ∧
             (has_new_key w row ↔
              get job "recommendation" (PyStr "") ∉ remote_keys (values w)))
          results rows ∧
  appended (writes_of saved.2) = filter (has_new_key w) rows ∧
  saved.1 = false.
Proof.
  intros w results clock.
  apply (save_keys_on_recommendation w "sheet-1" "Job Matches!A2:G" clock false
           results false); reflexivity.
Defined.

Lemma no_bang_cons c name :
  Re.contains "!" (String c name) = false →
  c ≠ "!"%char ∧ Re.contains "!" name = false.
Proof.
  cbn [Re.contains]. unfold Re.startswith. cbn [Re.strip_prefix].
  intros [H1 H2]%orb_false_elim. split; [|done].
  intros ->. by rewrite decide_True in H1.
Qed.

(** [sheet_range.split('!')[0]]: for a sheet name without exclamation mark
    followed by one and a cell range the result is the sheet name, and a
    range without exclamation mark is returned whole. *)
Theorem base_range_name name rest :
  Re.contains "!" name = false →
  base_range (name +:+ "!" +:+ rest) = name ∧ base_range name = name.
Proof.
  induction name as [|c name IH]; intros Hn.
  - by split.
  - apply no_bang_cons in Hn as [Hc Hn]. destruct (IH Hn) as [H1 H2].
    assert (Hstep : ∀ t, base_range (String c t) = String c (base_range t))
      by (intros t; simpl; by rewrite decide_False).
    change (String c name +:+ "!" +:+ rest) with (String c (name +:+ "!" +:+ rest)).
    by rewrite !Hstep, H1, H2.
Qed.

Lemma base_range_name_witness :
  base_range ("Job Matches" +:+ "!" +:+ "A2:G") = "Job Matches" ∧
  base_range "Job Matches" = "Job Matches".
Proof.
  apply (base_range_name "Job Matches" "A2:G"). vm_compute. reflexivity.
Defined.

End SheetsMore.

(** ** Further properties of scripts/llm_analyzer.py: the extractor *)

Section ExtractorMore.
Import Re LlmAnalyzer.

Lemma recommendation_code_in_codes t : recommendation_code t ∈ codes.
Proof.
  unfold recommendation_code, codes.
  repeat match goal with |- context [if ?b then _ else _] => destruct b end;
    set_solver.
Qed.

(** For every response the recommendation code is one of PURSUE, CONSIDER,
    AVOID and REVIEW. *)
Theorem recommendation_code_is_code s :
  ∃ c, c ∈ codes ∧
       extract_response_sections s !! "recommendation_code" = Some (VText c).
Proof.
  rewrite extract_inserts.
  repeat (rewrite lookup_insert_ne by discriminate). rewrite lookup_insert_eq.
  unfold code_value. destruct (search (section_re "recommendation") s) as [g|].
  - eexists. split; [apply recommendation_code_in_codes|done].
  - exists "REVIEW". split; [set_solver|done].
Qed.

Lemma float_nonneg g x : float g = Some x → (0 <= x)%Q.
Proof.
  unfold float. cbv zeta.
  destruct (span is_digit g) as [|n]; [done|].
  destruct (drop (S n) g) as [|c f].
  - destruct (digits_value 0 g) as [v|]; simpl; [|done]. intros [= <-].
    unfold Qle. simpl. lia.
  - destruct (decide (c = "."%char)) as [->|Hc].
    + destruct f as [|c' f']; [done|].
      destruct (digits_value 0 (take (S n) g)) as [i|]; cbn [mbind option_bind];
        [|done].
      destruct (digits_value i (String c' f')) as [v|]; cbn [mbind option_bind];
        [|done].
      intros [= <-]. rewrite Qred_correct. unfold Qle. simpl. lia.
    + intros H. exfalso. revert H.
      destruct c as [[] [] [] [] [] [] [] []]; done.
Qed.

Lemma float_or_zero_nonneg g : (0 <= float_or_zero g)%Q.
Proof.
  unfold float_or_zero. destruct (float g) as [x|] eqn:Hf; [|done].
  by eapply float_nonneg.
Qed.

(** For every response the three numeric fields hold numbers that are not
    negative; the patterns read no sign. *)
Theorem scores_not_negative s :
  Forall (λ key, ∃ x, extract_response_sections s !! key = Some (VFloat x) ∧
                      (0 <= x)%Q) numeric_fields.
Proof.
  unfold numeric_fields. repeat apply Forall_cons_2; [| | |apply Forall_nil_2];
    rewrite extract_inserts;
    repeat (rewrite lookup_insert_ne by discriminate); rewrite lookup_insert_eq;
    eexists; (split; [reflexivity|]).
  - destruct (search score_re s); [apply float_or_zero_nonneg|done].
  - destruct (search (section_re "human_fit") s); [|done].
    destruct (search number_re _); [apply float_or_zero_nonneg|done].
  - destruct (search (section_re "ats_fit") s); [|done].
    destruct (search number_re _); [apply float_or_zero_nonneg|done].
Qed.

Lemma lstrip_head s :
  lstrip s = "" ∨ ∃ c t, lstrip s = String c t ∧ is_space c = false.
Proof.
  induction s as [|c s IH]; [by left|]. simpl.
  destruct (is_space c) eqn:Hc; [done|]. right. eauto.
Qed.

Lemma rstrip_twice s : rstrip (rstrip s) = rstrip s.
Proof.
  induction s as [|c s IH]; [done|]. simpl.
  destruct (rstrip s) as [|d t] eqn:Hr.
  - destruct (is_space c) eqn:Hc; [done|]. simpl. by rewrite Hc.
  - change (rstrip (String c (String d t))) with
      (match rstrip (String d t) with
       | "" => if is_space c then "" else String c ""
       | String a b => String c (String a b)
       end).
    by rewrite IH.
Qed.

Lemma rstrip_head c s :
  is_space c = false → ∃ t, rstrip (String c s) = String c t.
Proof.
  intros Hc. simpl. destruct (rstrip s); rewrite ?Hc; eauto.
Qed.

Lemma strip_twice s : strip (strip s) = strip s.
Proof.
  unfold strip. destruct (lstrip_head s) as [->|(c & t & -> & Hc)]; [done|].
  destruct (rstrip_head c t Hc) as [t' Ht]. rewrite Ht.
  assert (lstrip (String c t') = String c t') as -> by (simpl; by rewrite Hc).
  by rewrite <- Ht, rstrip_twice.
Qed.

(** For every response the nine text fields hold stripped text: [strip]
    leaves each of them as it is, so none starts or ends with a blank. *)
Theorem text_fields_stripped s :
  Forall (λ key, ∃ t, extract_response_sections s !! key = Some (VText t) ∧
                      strip t = t) text_fields.
Proof.
  unfold text_fields.
  repeat first [apply Forall_nil_2 | apply Forall_cons_2];
    rewrite extract_inserts;
    repeat (rewrite lookup_insert_ne by discriminate); rewrite lookup_insert_eq;
    unfold text_value; eexists; (split; [reflexivity|]);
    match goal with
    | |- context [search ?r s] => destruct (search r s); [apply strip_twice|done]
    end.
Qed.

Lemma startswith_head u c k :
  startswith u (String c k) = true → ∃ t, u = String c t.
Proof.
  unfold startswith. destruct u as [|d t]; simpl; [done|].
  destruct (decide (c = d)) as [->|]; [eauto|done].
Qed.

(** A recommendation text that starts with one of the three keywords, in
    any case, gets that keyword as code, whatever keywords follow in the
    text. *)
Theorem leading_keyword_wins t k :
  k ∈ keywords → startswith (upper t) k = true → recommendation_code t = k.
Proof.
  unfold keywords, recommendation_code. intros Hk Hs.
  repeat apply elem_of_cons in Hk as [->|Hk]; [| | |by apply elem_of_nil in Hk].
  - by rewrite Hs.
  - destruct (startswith_head _ _ _ Hs) as [u Hu]. rewrite Hu in *.
    by rewrite Hs.
  - destruct (startswith_head _ _ _ Hs) as [u Hu]. rewrite Hu in *.
    by rewrite Hs.
Qed.

Lemma leading_keyword_wins_witness :
  recommendation_code "Avoid for now; pursue if the role changes" = "AVOID".
Proof.
  apply (leading_keyword_wins "Avoid for now; pursue if the role changes" "AVOID").
  - apply (bool_decide_unpack _). vm_compute. reflexivity.
  - vm_compute. reflexivity.
Defined.

End ExtractorMore.

(** ** The section pattern on a well-formed section *)

Section RoundTrip.
Import Re LlmAnalyzer.

Lemma sapp_cons x a b : String x a +:+ b = String x (a +:+ b).
Proof. reflexivity. Qed.

Lemma sapp_assoc a b c : (a +:+ b) +:+ c = a +:+ (b +:+ c).
Proof. induction a as [|x a IH]; [done|]. by rewrite !sapp_cons, IH. Qed.

Lemma sapp_nil_r a : a +:+ "" = a.
Proof. induction a as [|x a IH]; [done|]. by rewrite sapp_cons, IH. Qed.

Lemma length_sapp a b :
  String.length (a +:+ b) = (String.length a + String.length b)%nat.
Proof. induction a as [|x a IH]; [done|]. rewrite sapp_cons. simpl. by rewrite IH. Qed.

Lemma strip_prefix_app p t : strip_prefix p (p +:+ t) = Some t.
Proof.
  induction p as [|c p IH]; simpl; [by destruct t|]. by rewrite decide_True.
Qed.

Lemma no_lt_head c s : no_lt (String c s) = true → c ≠ "<"%char ∧ no_lt s = true.
Proof.
  simpl. intros [Hc Hs]%andb_true_iff. split; [|done].
  intros ->. done.
Qed.

(** A pattern literal without [<] that does not match a text does not
    match the text followed by a [<] either. *)
Lemma strip_prefix_before_lt p x y :
  no_lt p = true → p ≠ "" → strip_prefix p x = None →
  strip_prefix p (x +:+ String "<" y) = None.
Proof.
  revert p. induction x as [|d x IH]; intros p Hp Hne Hx.
  - destruct p as [|a p]; [done|]. apply no_lt_head in Hp as [Ha _].
    simpl. by rewrite decide_False.
  - destruct p as [|a p]; [done|]. simpl in *.
    destruct (decide (a = d)); [|done].
    destruct p as [|b p]; [by destruct x|].
    apply IH; [|done|done]. by apply no_lt_head in Hp as [_ ?].
Qed.

(** A literal [<p], with no other [<], that does not match a non-empty
    text does not match the text followed by a [<] either. *)
Lemma strip_prefix_tag_before_lt p c x y :
  no_lt p = true → p ≠ "" →
  strip_prefix (String "<" p) (String c x) = None →
  strip_prefix (String "<" p) (String c x +:+ String "<" y) = None.
Proof.
  intros Hp Hne. simpl. destruct (decide ("<"%char = c)); [|done].
  by apply strip_prefix_before_lt.
Qed.

Lemma contains_cons p c x :
  contains p (String c x) = false →
  strip_prefix p (String c x) = None ∧ contains p x = false.
Proof.
  cbn [contains]. unfold startswith.
  intros [H1 H2]%orb_false_elim. split; [|done].
  by destruct (strip_prefix p (String c x)).
Qed.

Lemma bind_all_nil {A B} (f : A → list B) (l : list A) :
  Forall (λ x, f x = []) l → l ≫= f = [].
Proof.
  induction 1 as [|x l Hx _ IH]; [done|]. by rewrite bind_cons, Hx, IH.
Qed.

Lemma counts_greedy_zero n : counts true 0 n = n :: reverse (seq 0 n).
Proof.
  unfold counts. rewrite Nat.sub_0_r, seq_S, reverse_snoc. done.
Qed.

Lemma counts_bound greedy lo hi k :
  k ∈ counts greedy lo hi → (lo ≤ k ≤ hi)%nat.
Proof.
  unfold counts. destruct greedy; rewrite ?elem_of_reverse, elem_of_seq; lia.
Qed.

Lemma span_all_space ws c y :
  all_space ws = true → is_space c = false →
  span is_space (ws +:+ String c y) = String.length ws.
Proof.
  intros Hws Hc. induction ws as [|x ws IH]; simpl in *; [by rewrite Hc|].
  apply andb_true_iff in Hws as [-> Hws]. by rewrite IH.
Qed.

Lemma run_cat_eq r1 r2 st : run (Cat r1 r2) st = run r1 st ≫= run r2.
Proof. reflexivity. Qed.

Lemma run_group_eq r st :
  run (Group r) st =
  (λ st', MState (rest st')
            (Some (take (String.length (rest st) - String.length (rest st'))
                        (rest st)))) <$> run r st.
Proof. reflexivity. Qed.

Lemma run_rep_eq greedy lo cls st :
  run (Rep greedy lo cls) st =
  (λ k, MState (drop k (rest st)) (group1 st)) <$> counts greedy lo (span cls (rest st)).
Proof. reflexivity. Qed.

Lemma run_lit_eq p st :
  run (Lit p) st =
  match strip_prefix p (rest st) with
  | Some s' => [MState s' (group1 st)]
  | None => []
  end.
Proof. reflexivity. Qed.

Lemma close_not_in_body ct b y k :
  no_lt ct = true → ct ≠ "" →
  contains (String "<" ct) b = false → visible b = true →
  (k ≤ span is_space (b +:+ String "<" y))%nat →
  strip_prefix (String "<" ct) (drop k (b +:+ String "<" y)) = None.
Proof.
  intros Hct Hne. revert k. induction b as [|c b IH]; intros k Hb Hv Hk; [done|].
  apply contains_cons in Hb as [Hhead Hb].
  destruct k as [|k].
  - by apply strip_prefix_tag_before_lt.
  - rewrite sapp_cons in *. cbn [drop span visible] in *.
    destruct (is_space c); [|lia]. apply IH; [done|done|lia].
Qed.

Lemma run_ws_close_fail ct b y g :
  no_lt ct = true → ct ≠ "" →
  contains (String "<" ct) b = false → visible b = true →
  run (Cat (Rep true 0 is_space) (Lit (String "<" ct)))
      (MState (b +:+ String "<" y) g) = [].
Proof.
  intros Hct Hne Hb Hv. cbn [run rest group1]. rewrite list_fmap_bind.
  apply bind_all_nil, Forall_forall. intros k Hk%counts_bound.
  cbn [compose run rest group1].
  rewrite close_not_in_body; [done..|lia].
Qed.

Lemma run_ws_close_ok ct ws post g :
  all_space ws = true →
  ∃ l, run (Cat (Rep true 0 is_space) (Lit (String "<" ct)))
           (MState (ws +:+ String "<" ct +:+ post) g) = MState post g :: l.
Proof.
  intros Hws. cbn [run rest group1].
  rewrite sapp_cons, span_all_space by done.
  rewrite counts_greedy_zero, fmap_cons, bind_cons. cbn [run rest group1].
  rewrite drop_app. change (String "<" (ct +:+ post)) with (String "<" ct +:+ post).
  rewrite strip_prefix_app. simpl. eauto.
Qed.

Lemma span_any s : span any_char s = String.length s.
Proof. induction s as [|c s IH]; [done|]. simpl. by rewrite IH. Qed.

Lemma drop_sapp_le j a b :
  (j ≤ String.length a)%nat → drop j (a +:+ b) = drop j a +:+ b.
Proof.
  revert a. induction j as [|j IH]; intros a Hj; [by destruct a|].
  destruct a as [|c a]; simpl in Hj; [lia|]. rewrite sapp_cons. simpl.
  apply IH. lia.
Qed.

Lemma contains_drop p s j : contains p s = false → contains p (drop j s) = false.
Proof.
  revert s. induction j as [|j IH]; intros s Hs; [by destruct s|].
  destruct s as [|c s]; [done|]. simpl.
  apply IH. by apply contains_cons in Hs as [_ ?].
Qed.

Lemma visible_sapp a b : visible a = true → visible (a +:+ b) = true.
Proof.
  induction a as [|c a IH]; [done|]. rewrite sapp_cons. simpl.
  destruct (is_space c); simpl; [|done]. apply IH.
Qed.

(** The lazy group followed by [\s*</tag>]: it stops at the end of a text
    [core] whose every non-empty suffix has a visible character and that,
    with the blanks [ws2] after it, does not contain the closing tag. *)
Lemma run_group_lazy ct core ws2 post g :
  no_lt ct = true → ct ≠ "" → core ≠ "" →
  (∀ j, (j < String.length core)%nat → visible (drop j core) = true) →
  contains (String "<" ct) (core +:+ ws2) = false →
  all_space ws2 = true →
  ∃ l, run (Cat (Group (Rep false 1 any_char))
                (Cat (Rep true 0 is_space) (Lit (String "<" ct))))
           (MState (core +:+ ws2 +:+ String "<" ct +:+ post) g) =
       MState post (Some core) :: l.
Proof.
  intros Hct Hne Hcore Hvis Hin Hws.
  remember (core +:+ ws2 +:+ String "<" ct +:+ post) as R0 eqn:HR0.
  remember (String.length core) as c eqn:Hc.
  assert (Hc1 : (1 ≤ c)%nat) by (subst c; destruct core; [done|simpl; lia]).
  assert (Hcm : (c ≤ String.length R0)%nat) by (subst c R0; rewrite length_sapp; lia).
  assert (Hdrop : drop c R0 = ws2 +:+ String "<" ct +:+ post)
    by (subst c R0; apply drop_app).
  assert (Htake : take (String.length R0 - String.length (drop c R0)) R0 = core).
  { rewrite length_drop by done.
    replace (String.length R0 - (String.length R0 - c))%nat with c by lia.
    subst c R0. apply take_app. }
  assert (Hfail : ∀ j cap, (1 ≤ j < c)%nat →
    run (Cat (Rep true 0 is_space) (Lit (String "<" ct)))
        (MState (drop j R0) cap) = []).
  { intros j cap Hj. subst R0. rewrite drop_sapp_le by lia.
    rewrite <- sapp_assoc.
    change (String "<" ct +:+ post) with (String "<" (ct +:+ post)).
    apply run_ws_close_fail; [done|done| |].
    - rewrite <- drop_sapp_le by lia. by apply contains_drop.
    - apply visible_sapp, Hvis. lia. }
  rewrite run_cat_eq, run_group_eq, run_rep_eq. cbn [rest group1].
  rewrite span_any. unfold counts.
  replace (S (String.length R0) - 1)%nat
    with ((c - 1) + (1 + (String.length R0 - c)))%nat by lia.
  rewrite seq_app, (seq_app 1). replace (1 + (c - 1))%nat with c by lia.
  change (seq c 1) with [c]. cbn [app].
  rewrite !fmap_app, bind_app, !fmap_cons, bind_cons.
  rewrite bind_all_nil.
  2:{ rewrite !Forall_fmap. apply Forall_forall. intros j Hj%elem_of_seq.
      cbn [compose rest group1]. apply Hfail. lia. }
  cbn [app rest group1]. rewrite Htake, Hdrop.
  destruct (run_ws_close_ok ct ws2 post (Some core) Hws) as [l Hl].
  rewrite Hl. simpl. eauto.
Qed.

Lemma run_section_body ct ws1 c0 t ws2 post g :
  no_lt ct = true → ct ≠ "" →
  all_space ws1 = true → is_space c0 = false →
  (∀ j, (j < String.length (String c0 t))%nat →
        visible (drop j (String c0 t)) = true) →
  contains (String "<" ct) (String c0 t +:+ ws2) = false →
  all_space ws2 = true →
  ∃ l, run (Cat (Rep true 0 is_space)
             (Cat (Group (Rep false 1 any_char))
                (Cat (Rep true 0 is_space) (Lit (String "<" ct)))))
           (MState (ws1 +:+ String c0 t +:+ ws2 +:+ String "<" ct +:+ post) g) =
       MState post (Some (String c0 t)) :: l.
Proof.
  intros Hct Hne Hws1 Hc0 Hvis Hin Hws2.
  rewrite run_cat_eq, run_rep_eq. cbn [rest group1].
  rewrite (sapp_cons c0), span_all_space by done.
  rewrite counts_greedy_zero, fmap_cons, bind_cons, drop_app.
  rewrite <- (sapp_cons c0).
  destruct (run_group_lazy ct (String c0 t) ws2 post g) as [l Hl]; try done.
  rewrite Hl. simpl. eauto.
Qed.

Lemma search_from_skip o r pre y :
  no_lt o = true → o ≠ "" →
  contains (String "<" o) pre = false →
  search_from (Cat (Lit (String "<" o)) r) (pre +:+ String "<" y) =
  search_from (Cat (Lit (String "<" o)) r) (String "<" y).
Proof.
  intros Ho Hne. induction pre as [|c pre IH]; intros Hpre; [done|].
  apply contains_cons in Hpre as [Hhead Hpre].
  rewrite sapp_cons. cbn [search_from]. rewrite <- sapp_cons.
  rewrite run_cat_eq, run_lit_eq. cbn [rest].
  rewrite strip_prefix_tag_before_lt by done. cbn [mbind list_bind].
  by apply IH.
Qed.

Lemma lstrip_split s : ∃ ws, all_space ws = true ∧ s = ws +:+ lstrip s.
Proof.
  induction s as [|c s (ws & Hws & Hs)]; [by exists ""|]. simpl.
  destruct (is_space c) eqn:Hc; [|by exists ""].
  exists (String c ws). simpl. rewrite Hc, Hws. split; [done|].
  rewrite sapp_cons. by rewrite <- Hs.
Qed.

Lemma rstrip_split u : ∃ ws, all_space ws = true ∧ u = rstrip u +:+ ws.
Proof.
  induction u as [|c u (ws & Hws & Hu)]; [by exists ""|]. simpl.
  destruct (rstrip u) as [|d r] eqn:Hr.
  - simpl in Hu. subst u. destruct (is_space c) eqn:Hc.
    + exists (String c ws). simpl. by rewrite Hc, Hws.
    + by exists ws.
  - exists ws. split; [done|]. rewrite sapp_cons. by rewrite <- Hu.
Qed.

Lemma rstrip_suffix_visible u j :
  (j < String.length (rstrip u))%nat → visible (drop j (rstrip u)) = true.
Proof.
  revert j. induction u as [|c u IH]; intros j; [simpl; lia|]. simpl.
  destruct (rstrip u) as [|d r] eqn:Hr.
  - destruct (is_space c) eqn:Hc; simpl; [lia|].
    intros Hj. destruct j; [|lia]. simpl. by rewrite Hc.
  - intros Hj. destruct j as [|j].
    + change (drop 0 (String c (String d r))) with (String c (String d r)).
      assert (H0 : visible (String d r) = true) by (apply (IH 0%nat); simpl; lia).
      cbn [visible] in *. rewrite H0. apply orb_true_r.
    + change (drop (S j) (String c (String d r))) with (drop j (String d r)).
      apply IH. simpl in *. lia.
Qed.

Lemma visible_after_blanks ws x :
  all_space ws = true → visible (ws +:+ x) = visible x.
Proof.
  intros Hws. induction ws as [|c ws IH]; [done|]. rewrite sapp_cons.
  simpl in *. apply andb_true_iff in Hws as [-> Hws]. by apply IH.
Qed.

Lemma visible_before_blanks x ws :
  all_space ws = true → visible (x +:+ ws) = visible x.
Proof.
  intros Hws. induction x as [|c x IH].
  - change ("" +:+ ws) with ws. clear -Hws.
    induction ws as [|c ws IH]; [done|]. simpl in *.
    apply andb_true_iff in Hws as [-> Hws]. by apply IH.
  - rewrite sapp_cons. simpl. by rewrite IH.
Qed.

Lemma no_lt_sapp a b : no_lt (a +:+ b) = no_lt a && no_lt b.
Proof.
  induction a as [|c a IH]; [done|]. rewrite sapp_cons. simpl.
  by rewrite IH, andb_assoc.
Qed.

(** [re.search] with the section pattern on a response that holds the
    section: when the opening tag does not occur before the section, the
    closing tag does not occur in the body and the body has a visible
    character, the group captures the stripped body. *)
Lemma search_section tag pre body post :
  no_lt tag = true →
  contains ("<" +:+ tag +:+ ">") pre = false →
  contains ("</" +:+ tag +:+ ">") body = false →
  visible body = true →
  search (section_re tag) (with_section tag pre body post) = Some (strip body).
Proof.
  intros Htag Hpre Hbody Hvis.
  destruct (lstrip_split body) as (ws1 & Hws1 & Hb1).
  destruct (rstrip_split (lstrip body)) as (ws2 & Hws2 & Hb2).
  fold (strip body) in Hb2.
  assert (Hvs : visible (strip body) = true).
  { rewrite Hb1, Hb2 in Hvis.
    by rewrite visible_after_blanks, visible_before_blanks in Hvis. }
  assert (∃ c0 t, strip body = String c0 t ∧ is_space c0 = false) as (c0 & t & Hcore & Hc0).
  { unfold strip in *. destruct (lstrip_head body) as [He|(c & u & He & Hc)].
    - by rewrite He in Hvs.
    - rewrite He. destruct (rstrip_head c u Hc) as [t' Ht']. eauto. }
  assert (Hsuf : ∀ j, (j < String.length (strip body))%nat →
                      visible (drop j (strip body)) = true)
    by (intros j; apply rstrip_suffix_visible).
  assert (Hin : contains ("</" +:+ tag +:+ ">") (strip body +:+ ws2) = false).
  { rewrite <- Hb2. rewrite Hb1 in Hbody.
    apply (contains_drop _ _ (String.length ws1)) in Hbody.
    by rewrite drop_app in Hbody. }
  assert (Hct : no_lt (String "/" (tag +:+ ">")) = true)
    by (simpl; by rewrite no_lt_sapp, Htag).
  assert (Hot : no_lt (tag +:+ ">") = true) by (by rewrite no_lt_sapp, Htag).
  assert (Hone : tag +:+ ">" ≠ "") by (by destruct tag).
  unfold search, with_section, section_re.
  change ("<" +:+ tag +:+ ">") with (String "<" (tag +:+ ">")) in *.
  change ("</" +:+ tag +:+ ">") with (String "<" (String "/" (tag +:+ ">"))) in *.
  rewrite (sapp_cons "<" (tag +:+ ">")).
  rewrite search_from_skip by done.
  rewrite <- (sapp_cons "<" (tag +:+ ">")).
  pose proof (strip_prefix_app (String "<" (tag +:+ ">"))
    (body +:+ String "<" (String "/" (tag +:+ ">")) +:+ post)) as Hopen.
  destruct (run_section_body (String "/" (tag +:+ ">")) ws1 c0 t ws2 post None)
    as [l Hl]; try done; try (rewrite <- Hcore; done).
  assert (Hrun : run
    (Cat (Lit (String "<" (tag +:+ ">")))
       (Cat (Rep true 0 is_space)
          (Cat (Group (Rep false 1 any_char))
             (Cat (Rep true 0 is_space) (Lit (String "<" (String "/" (tag +:+ ">"))))))))
    (MState (String "<" (tag +:+ ">") +:+
             body +:+ String "<" (String "/" (tag +:+ ">")) +:+ post) None) =
    MState post (Some (strip body)) :: l).
  { rewrite run_cat_eq, run_lit_eq. cbn [rest group1]. rewrite Hopen.
    rewrite bind_singleton.
    rewrite Hb1 at 1. rewrite Hb2 at 1. rewrite Hcore at 1.
    rewrite !sapp_assoc. rewrite Hcore. exact Hl. }
  destruct (String "<" (tag +:+ ">") +:+
            body +:+ String "<" (String "/" (tag +:+ ">")) +:+ post) eqn:Hs;
    cbn [search_from]; rewrite Hrun; done.
Qed.

(** Round trip of a section: from a response that holds [<tag>body</tag>]
    for one of the nine section tags, where the opening tag does not occur
    before the section, the closing tag does not occur in the body and the
    body has a visible character, [extract_response_sections] returns the
    stripped body as the text of the section, whatever surrounds it. *)
Theorem section_round_trip tag pre body post :
  tag ∈ section_tags →
  contains ("<" +:+ tag +:+ ">") pre = false →
  contains ("</" +:+ tag +:+ ">") body = false →
  visible body = true →
  extract_response_sections (with_section tag pre body post) !! text_key tag =
  Some (VText (strip body)).
Proof.
  unfold section_tags. intros Htag Hpre Hbody Hvis.
  repeat apply elem_of_cons in Htag as [->|Htag]; [..|by apply elem_of_nil in Htag];
    match goal with
    | |- context [text_key ?t] =>
        let k := eval vm_compute in (text_key t) in change (text_key t) with k
    end;
    rewrite extract_inserts;
    repeat (rewrite lookup_insert_ne by discriminate); rewrite lookup_insert_eq;
    unfold text_value; rewrite search_section by (assumption || reflexivity);
    by rewrite strip_twice.
Qed.

Lemma section_round_trip_witness :
  extract_response_sections
    (with_section "summary" "Analysis: <score>8</score> " "
  Good fit overall.  " " <recommendation>PURSUE</recommendation>")
    !! text_key "summary" = Some (VText (strip "
  Good fit overall.  ")).
Proof.
  apply (section_round_trip "summary").
  - apply (bool_decide_unpack _). vm_compute. reflexivity.
  - vm_compute. reflexivity.
  - vm_compute. reflexivity.
  - vm_compute. reflexivity.
Defined.

(** The recommendation code of a response that holds a recommendation
    section, under the same conditions: it is derived from the stripped body
    of that section. *)
Theorem recommendation_section_code pre body post :
  contains "<recommendation>" pre = false →
  contains "</recommendation>" body = false →
  visible body = true →
  extract_response_sections (with_section "recommendation" pre body post)
    !! "recommendation_code" = Some (VText (recommendation_code (strip body))).
Proof.
  intros Hpre Hbody Hvis. rewrite extract_inserts.
  repeat (rewrite lookup_insert_ne by discriminate). rewrite lookup_insert_eq.
  unfold code_value. rewrite search_section by (assumption || reflexivity).
  by rewrite strip_twice.
Qed.

Lemma recommendation_section_code_witness :
  extract_response_sections
    (with_section "recommendation" "<score>6.5</score>"
       " Consider: solid match, but avoid relocation. " "<summary>ok</summary>")
    !! "recommendation_code" =
  Some (VText (recommendation_code
                 (strip " Consider: solid match, but avoid relocation. "))).
Proof.
  apply recommendation_section_code; vm_compute; reflexivity.
Defined.

Lemma digits_spec s :
  digits s = true → s ≠ "" ∧ span is_digit s = String.length s.
Proof.
  unfold digits. intros [H1 H2]%andb_true_iff. split.
  - intros ->. done.
  - by apply Nat.eqb_eq.
Qed.

Lemma counts_greedy_one n :
  (1 ≤ n)%nat → counts true 1 n = n :: reverse (seq 1 (n - 1)).
Proof.
  intros Hn. unfold counts.
  replace (S n - 1)%nat with (S (n - 1)) by lia.
  rewrite seq_S, reverse_snoc. f_equal. lia.
Qed.

Lemma length_nonempty s : s ≠ "" → (1 ≤ String.length s)%nat.
Proof. destruct s; [done|simpl; lia]. Qed.

(** [\d+] takes a whole run of digits first when the next character is not
    a digit. *)
Lemma run_digits_full d c y g :
  digits d = true → is_digit c = false →
  ∃ l, run (Rep true 1 is_digit) (MState (d +:+ String c y) g) =
       MState (String c y) g :: l.
Proof.
  intros [Hne Hd]%digits_spec Hc. rewrite run_rep_eq. cbn [rest group1].
  rewrite span_app_stop by done.
  rewrite counts_greedy_one by (by apply length_nonempty).
  rewrite fmap_cons, drop_app. eauto.
Qed.

(** [\d+(?:\.\d+)?] takes a whole decimal literal first when a [<] follows
    it. *)
Lemma run_number_full whole frac y g :
  digits whole = true → from_option digits true frac = true →
  ∃ l, run number (MState (decimal_literal whole frac +:+ String "<" y) g) =
       MState (String "<" y) g :: l.
Proof.
  intros Hw Hf. unfold number. rewrite run_cat_eq.
  destruct frac as [f|]; cbn [decimal_literal from_option] in *.
  - rewrite sapp_assoc. change ("." +:+ f) with (String "." f).
    rewrite sapp_cons.
    destruct (run_digits_full whole "." (f +:+ String "<" y) g) as [l Hl]; try done.
    rewrite Hl, bind_cons.
    destruct (run_digits_full f "<" y g) as [l' Hl']; try done.
    cbn [run rest group1]. cbn [strip_prefix]. rewrite decide_True by done.
    cbn [strip_prefix]. rewrite bind_singleton.
    fold (run (Rep true 1 is_digit) (MState (f +:+ String "<" y) g)).
    rewrite Hl'. simpl. eauto.
  - destruct (run_digits_full whole "<" y g) as [l Hl]; try done.
    rewrite Hl, bind_cons. cbn [run rest group1 strip_prefix].
    rewrite decide_False by done. simpl. eauto.
Qed.

(** [re.search] with the score pattern on a response that holds the score
    tag around a decimal literal, with no opening score tag before it: the
    group captures the literal. *)
Lemma search_score pre whole frac post :
  contains "<score>" pre = false →
  digits whole = true → from_option digits true frac = true →
  search score_re (with_score pre (decimal_literal whole frac) post) =
  Some (decimal_literal whole frac).
Proof.
  intros Hpre Hw Hf. unfold search, with_score, score_re.
  change "<score>" with (String "<" "score>") in *.
  change "</score>" with (String "<" "/score>").
  rewrite (sapp_cons "<" "score>"), search_from_skip by done.
  rewrite <- (sapp_cons "<" "score>").
  set (num := decimal_literal whole frac).
  destruct (run_number_full whole frac ("/score>" +:+ post) None Hw Hf) as [l Hl].
  fold num in Hl.
  assert (Hrun : ∃ l', run
    (Cat (Lit (String "<" "score>")) (Cat (Group number) (Lit (String "<" "/score>"))))
    (MState (String "<" "score>" +:+ num +:+ String "<" "/score>" +:+ post) None) =
    MState post (Some num) :: l').
  { rewrite run_cat_eq, run_lit_eq. cbn [rest group1].
    rewrite strip_prefix_app, bind_singleton.
    rewrite run_cat_eq, run_group_eq. cbn [rest group1].
    rewrite (sapp_cons "<" "/score>"), Hl, fmap_cons, bind_cons.
    cbn [rest group1]. rewrite run_lit_eq. cbn [rest group1].
    rewrite <- (sapp_cons "<" "/score>"), strip_prefix_app.
    rewrite length_sapp.
    replace (String.length num + String.length (String "<" "/score>" +:+ post) -
             String.length (String "<" "/score>" +:+ post))%nat
      with (String.length num) by lia.
    rewrite take_app. simpl. eauto. }
  destruct Hrun as [l' Hrun].
  destruct (String "<" "score>" +:+ num +:+ String "<" "/score>" +:+ post);
    cbn [search_from]; rewrite Hrun; done.
Qed.

(** Round trip of the score: from a response that holds
    [<score>num</score>] with [num] a decimal literal and no opening score
    tag before it, [extract_response_sections] returns [float(num)] as the
    score, not the default, whatever surrounds the tag. *)
Theorem score_round_trip pre whole frac post :
  contains "<score>" pre = false →
  digits whole = true → from_option digits true frac = true →
  ∃ x, float (decimal_literal whole frac) = Some x ∧
       extract_response_sections (with_score pre (decimal_literal whole frac) post)
         !! "score" = Some (VFloat x).
Proof.
  intros Hpre Hw Hf.
  pose proof (search_score pre whole frac post Hpre Hw Hf) as Hs.
  destruct (proj1 captured_numbers_parse _ _ Hs) as [x Hx].
  exists x. split; [done|]. rewrite extract_inserts.
  repeat (rewrite lookup_insert_ne by discriminate). rewrite lookup_insert_eq.
  unfold score_value, float_or_zero. by rewrite Hs, Hx.
Qed.

Lemma score_round_trip_witness :
  ∃ x, float (decimal_literal "7" (Some "5")) = Some x ∧
       extract_response_sections
         (with_score "Result: " (decimal_literal "7" (Some "5"))
                     "<summary>Good</summary>")
         !! "score" = Some (VFloat x).
Proof.
  apply (score_round_trip "Result: " "7" (Some "5") "<summary>Good</summary>");
    vm_compute; reflexivity.
Defined.

End RoundTrip.

(** ** scripts/main.py: the listings passed to the analysis *)

Section PipelineFacts.
Import Py JobDatabase Pipeline.

(** With a positive limit, the listings [main] passes to the analysis are
    the first [max_jobs_to_analyze] of the new listings when there is one,
    and otherwise the first [max_jobs_to_analyze] of all scraped listings:
    when every listing is already known, known listings are analysed again.
    So at most [max_jobs_to_analyze] listings are analysed, and at least one
    whenever a listing was scraped. *)
Theorem jobs_for_analysis_choice (all_jobs : list (gmap string pyval))
    (tbl : gmap string job_row) max_jobs :
  0 < max_jobs →
  jobs_for_analysis all_jobs tbl max_jobs =
    take (Z.to_nat max_jobs)
      (match filter_new_jobs all_jobs tbl with
       | [] => all_jobs
       | new_jobs => new_jobs
       end) ∧
  Z.of_nat (length (jobs_for_analysis all_jobs tbl max_jobs)) ≤ max_jobs ∧
  (jobs_for_analysis all_jobs tbl max_jobs = [] ↔ all_jobs = []).
Proof.
  intros Hmax.
  assert (Heq : jobs_for_analysis all_jobs tbl max_jobs =
    take (Z.to_nat max_jobs)
      (match filter_new_jobs all_jobs tbl with
       | [] => all_jobs
       | new_jobs => new_jobs
       end)).
  { unfold jobs_for_analysis, slice_to, truthy.
    assert (negb (max_jobs =? 0) = true) as -> by (apply negb_true_iff; lia).
    cbn [andb].
    destruct (filter_new_jobs all_jobs tbl) as [|job new] eqn:Hnew.
    - rewrite decide_True by lia.
      assert (Hlen : length (take (Z.to_nat (Z.min max_jobs (Z.of_nat (length all_jobs))))
                all_jobs) = Z.to_nat (Z.min max_jobs (Z.of_nat (length all_jobs))))
        by (rewrite list.length_take; lia).
      rewrite Hlen.
      destruct (max_jobs <? _) eqn:Hlt; [apply Z.ltb_lt in Hlt; lia|].
      destruct (decide (max_jobs ≤ Z.of_nat (length all_jobs))).
      + by rewrite Z.min_l by lia.
      + rewrite Z.min_r by lia. rewrite Nat2Z.id.
        by rewrite !take_ge by lia.
    - destruct (max_jobs <? _) eqn:Hlt.
      + by rewrite decide_True by lia.
      + apply Z.ltb_ge in Hlt. by rewrite take_ge by lia. }
  split; [done|]. rewrite Heq. split.
  - rewrite list.length_take. lia.
  - destruct (filter_new_jobs all_jobs tbl) as [|job new] eqn:Hnew.
    + destruct all_jobs; [by rewrite take_nil|].
      destruct (Z.to_nat max_jobs) eqn:Hn; [lia|]. done.
    + destruct (Z.to_nat max_jobs) eqn:Hn; [lia|]. simpl.
      split; [done|]. intros ->. discriminate Hnew.
Qed.

Lemma jobs_for_analysis_choice_witness :
  let all_jobs : list (gmap string pyval) :=
    [ {["job_id" := PyStr "a1"]}; {["job_id" := PyStr "b2"]};
      {["job_id" := PyStr "c3"]} ] in
  let tbl : gmap string job_row :=
    {["a1" := JobRow None None None "2024-05-01" "2024-05-01" 0;
      "b2" := JobRow None None None "2024-05-01" "2024-05-01" 0;
      "c3" := JobRow None None None "2024-05-01" "2024-05-01" 0]} in
  jobs_for_analysis all_jobs tbl 2 =
    take (Z.to_nat 2)
      (match filter_new_jobs all_jobs tbl with
       | [] => all_jobs
       | new_jobs => new_jobs
       end) ∧
  Z.of_nat (length (jobs_for_analysis all_jobs tbl 2)) ≤ 2 ∧
  (jobs_for_analysis all_jobs tbl 2 = [] ↔ all_jobs = []).
Proof.
  intros all_jobs tbl. apply (jobs_for_analysis_choice all_jobs tbl 2). lia.
Defined.

End PipelineFacts.

(** ** scripts/cv_parser.py *)

Section CvParserFacts.
Import Re CvParser.

(** The length of the text [format_cv_for_prompt] returns, for a limit that
    is not negative: a text within the limit is returned as it is; a longer
    one is cut at the limit and the note is added, which makes the result 37
    characters longer than the limit. *)
Theorem format_cv_length cv max_length :
  0 ≤ max_length →
  Z.of_nat (String.length (format_cv_for_prompt cv max_length)) =
    (if decide (Z.of_nat (String.length (joined_parts cv)) ≤ max_length)
     then Z.of_nat (String.length (joined_parts cv))
     else max_length + 37) ∧
  (Z.of_nat (String.length (joined_parts cv)) ≤ max_length →
   format_cv_for_prompt cv max_length = joined_parts cv).
Proof.
  intros Hmax. unfold format_cv_for_prompt, text_slice_to.
  destruct (max_length <? _) eqn:Hlt.
  - apply Z.ltb_lt in Hlt.
    destruct (decide (Z.of_nat (String.length (joined_parts cv)) ≤ max_length));
      [lia|].
    split; [|intros; lia].
    destruct (decide (0 ≤ max_length)); [|lia].
    rewrite length_sapp, length_take by lia.
    change (String.length truncation_note) with 37%nat. lia.
  - apply Z.ltb_ge in Hlt.
    by destruct (decide (Z.of_nat (String.length (joined_parts cv)) ≤ max_length)).
Qed.

Lemma format_cv_length_witness :
  Z.of_nat (String.length (format_cv_for_prompt [("Profile", "Product lead")] 10)) =
    (if decide (Z.of_nat (String.length (joined_parts [("Profile", "Product lead")])) ≤ 10)
     then Z.of_nat (String.length (joined_parts [("Profile", "Product lead")]))
     else 10 + 37) ∧
  (Z.of_nat (String.length (joined_parts [("Profile", "Product lead")])) ≤ 10 →
   format_cv_for_prompt [("Profile", "Product lead")] 10 =
   joined_parts [("Profile", "Product lead")]).
Proof.
  apply (format_cv_length [("Profile", "Product lead")] 10). lia.
Defined.

Lemma dict_get_set_eq k v d : dict_get k (dict_set k v d) = Some v.
Proof.
  unfold dict_get. induction d as [|[k' v'] d IH]; simpl.
  - by rewrite bool_decide_eq_true_2.
  - destruct (decide (k' = k)) as [->|Hne]; simpl.
    + by rewrite bool_decide_eq_true_2.
    + by rewrite bool_decide_eq_false_2.
Qed.

Lemma dict_get_set_ne k k' v d :
  k ≠ k' → dict_get k' (dict_set k v d) = dict_get k' d.
Proof.
  intros Hne. unfold dict_get. induction d as [|[k0 v0] d IH]; simpl.
  - by rewrite bool_decide_eq_false_2.
  - destruct (decide (k0 = k)) as [->|Hne0]; simpl.
    + by rewrite !bool_decide_eq_false_2.
    + destruct (bool_decide (k0 = k')); [done|]. apply IH.
Qed.

Lemma dict_get_set_some k k' v d :
  is_Some (dict_get k' d) → is_Some (dict_get k' (dict_set k v d)).
Proof.
  intros H. destruct (decide (k = k')) as [->|Hne].
  - rewrite dict_get_set_eq. by eexists.
  - by rewrite dict_get_set_ne.
Qed.

Lemma dict_set_twice k v w d : dict_set k w (dict_set k v d) = dict_set k w d.
Proof.
  induction d as [|[k' v'] d IH]; simpl.
  - by rewrite decide_True.
  - destruct (decide (k' = k)) as [->|Hne]; simpl.
    + by rewrite decide_True.
    + rewrite decide_False by done. by rewrite IH.
Qed.

Lemma dict_set_fresh k v d : dict_get k d = None → dict_set k v d = d ++ [(k, v)].
Proof.
  unfold dict_get. induction d as [|[k' v'] d IH]; simpl; [done|].
  destruct (decide (k' = k)) as [->|Hne].
  - by rewrite bool_decide_eq_true_2.
  - rewrite bool_decide_eq_false_2 by done. intros H. by rewrite IH.
Qed.

Lemma dict_has_spec k d : dict_has k d = true ↔ is_Some (dict_get k d).
Proof. unfold dict_has. apply bool_decide_eq_true. Qed.

Lemma parse_line_known st line :
  section_known st → ∃ st', parse_line st line = Some st' ∧ section_known st'.
Proof.
  unfold section_known, parse_line. intros Hst.
  destruct (startswith line "# ").
  { eexists. split; [done|]. cbn [current_section cv_data default]. intros _.
    rewrite dict_get_set_eq. by eexists. }
  destruct (startswith line "## ").
  { destruct (truthy_text (current_section st)) eqn:Hcs;
      [|exists st; split; [done|by rewrite Hcs]].
    eexists. split; [done|]. cbn [current_section cv_data]. intros _.
    specialize (Hst eq_refl).
    repeat match goal with
           | |- context [if dict_has ?k ?d then _ else _] =>
               destruct (dict_has k d) eqn:?
           end;
      repeat apply dict_get_set_some; done. }
  destruct (truthy_text (current_section st)) eqn:Hcs;
    [|exists st; split; [done|by rewrite Hcs]].
  specialize (Hst eq_refl).
  destruct (truthy_text (current_subsection st)) eqn:Hsub.
  - destruct (dict_has _ (cv_data st)) eqn:Hhas.
    + apply dict_has_spec in Hhas as [v Hv]. unfold dict_iadd. rewrite Hv.
      eexists. split; [done|]. cbn [current_section cv_data]. intros _.
      by apply dict_get_set_some.
    + eexists. split; [done|]. cbn [current_section cv_data]. intros _.
      by apply dict_get_set_some.
  - destruct Hst as [v Hv]. unfold dict_iadd. rewrite Hv.
    eexists. split; [done|]. cbn [current_section cv_data]. intros _.
    apply dict_get_set_some. by eexists.
Qed.

Lemma parse_lines_known lines st :
  section_known st →
  ∃ st', foldl (λ st line, st ≫= λ st, parse_line st line) (Some st) lines = Some st' ∧
         section_known st'.
Proof.
  revert st. induction lines as [|line lines IH]; intros st Hst; [by eexists|].
  destruct (parse_line_known st line Hst) as (st1 & H1 & Hk1).
  cbn [foldl mbind option_bind]. rewrite H1. by apply IH.
Qed.

(** The loop of [parse_markdown_cv] raises no [KeyError] on any file:
    whenever a line is added to the text of a section, the section is in
    the dictionary; so the result is the dictionary the loop has built, with
    every value stripped. *)
Theorem parse_never_raises lines :
  ∃ st, parse_lines lines = Some st ∧
        parse_markdown_cv (Some lines) =
          (λ kv : string * string, (kv.1, strip kv.2)) <$> cv_data st.
Proof.
  destruct (parse_lines_known lines (Parser [] None None)) as (st & Hst & _);
    [done|].
  exists st. unfold parse_markdown_cv, parse_lines. by rewrite Hst.
Qed.

Lemma dict_set_same k v d : dict_get k d = Some v → dict_set k v d = d.
Proof.
  unfold dict_get. induction d as [|[k' v'] d IH]; simpl; [done|].
  destruct (decide (k' = k)) as [->|Hne].
  - rewrite bool_decide_eq_true_2 by done. simpl. by intros [= ->].
  - rewrite bool_decide_eq_false_2 by done. intros H. by rewrite IH.
Qed.

Lemma dict_get_snoc k k' v d :
  dict_get k' (d ++ [(k, v)]) =
  match dict_get k' d with
  | Some w => Some w
  | None => if decide (k = k') then Some v else None
  end.
Proof.
  unfold dict_get. induction d as [|[k0 v0] d IH]; simpl.
  - destruct (decide (k = k')).
    + by rewrite bool_decide_eq_true_2.
    + by rewrite bool_decide_eq_false_2.
  - destruct (bool_decide (k0 = k')); [done|]. apply IH.
Qed.

Lemma foldl_parse_none lines :
  foldl (λ st line, st ≫= λ st, parse_line st line) None lines = None.
Proof. by induction lines. Qed.

Lemma parse_preamble pre :
  Forall (λ line, startswith line "# " = false) pre →
  foldl (λ st line, st ≫= λ st, parse_line st line) (Some (Parser [] None None)) pre =
  Some (Parser [] None None).
Proof.
  induction 1 as [|line pre Hline _ IH]; [done|].
  cbn [foldl mbind option_bind]. unfold parse_line at 2. rewrite Hline.
  cbn [current_section truthy_text]. by destruct (startswith line "## ").
Qed.

Lemma parse_body n v d lines :
  n ≠ "" → dict_get n d = Some v → Forall plain lines →
  foldl (λ st line, st ≫= λ st, parse_line st line)
        (Some (Parser d (Some n) None)) lines =
  Some (Parser (dict_set n (v +:+ concat_lines lines) d) (Some n) None).
Proof.
  intros Hn Hd Hplain. revert v d Hd.
  induction Hplain as [|line lines [H1 H2] _ IH]; intros v d Hd.
  - simpl. rewrite sapp_nil_r. by rewrite dict_set_same.
  - assert (Hstep : parse_line (Parser d (Some n) None) line =
                    Some (Parser (dict_set n (v +:+ line) d) (Some n) None)).
    { unfold parse_line. rewrite H1, H2.
      cbn [current_section current_subsection cv_data truthy_text default].
      destruct n as [|c n]; [done|]. cbn [truthy_text].
      unfold dict_iadd, id. by rewrite Hd. }
    cbn [foldl mbind option_bind]. rewrite Hstep.
    rewrite (IH (v +:+ line)) by apply dict_get_set_eq.
    rewrite dict_set_twice. cbn [concat_lines foldr].
    by rewrite sapp_assoc.
Qed.

Lemma parse_sections secs : ∀ d cs css,
  Forall (λ sec : string * list string,
            startswith sec.1 "# " = true ∧ section_name sec.1 ≠ "" ∧
            Forall plain sec.2) secs →
  NoDup ((λ sec : string * list string, section_name sec.1) <$> secs) →
  Forall (λ sec : string * list string, dict_get (section_name sec.1) d = None) secs →
  ∃ cs' css',
    foldl (λ st line, st ≫= λ st, parse_line st line)
          (Some (Parser d cs css)) (file_lines secs) =
    Some (Parser (d ++ ((λ sec : string * list string,
                           (section_name sec.1, concat_lines sec.2)) <$> secs))
                 cs' css').
Proof.
  induction secs as [|[h ls] secs IH]; intros d cs css Hok Hnd Hfresh.
  - exists cs, css. simpl. by rewrite app_nil_r.
  - apply Forall_cons in Hok as [(Hh & Hname & Hplain) Hok].
    rewrite fmap_cons in Hnd. apply NoDup_cons in Hnd as [Hnotin Hnd].
    apply Forall_cons in Hfresh as [Hf Hfresh]. cbn [fst snd] in *.
    unfold file_lines. rewrite bind_cons. fold (file_lines secs).
    cbn [fst snd app foldl mbind option_bind].
    unfold parse_line at 2. rewrite Hh. fold (section_name h).
    cbn [cv_data]. rewrite foldl_app.
    rewrite (parse_body (section_name h) "" (dict_set (section_name h) "" d) ls Hname);
      [|apply dict_get_set_eq|done].
    rewrite dict_set_twice, dict_set_fresh by done.
    destruct (IH (d ++ [(section_name h, "" +:+ concat_lines ls)])
                 (Some (section_name h)) None Hok Hnd) as (cs' & css' & Heq).
    { rewrite Forall_forall in *. intros sec Hsec.
      rewrite dict_get_snoc, (Hfresh sec Hsec).
      rewrite decide_False; [done|]. intros Heq. apply Hnotin.
      rewrite Heq. apply list_elem_of_fmap. by exists sec. }
    exists cs', css'. rewrite Heq. by rewrite <- app_assoc.
Qed.

(** Round trip of [parse_markdown_cv]: a file that starts with lines that
    open no section, followed by sections that each have a header line, a
    name of their own and plain lines, is parsed into the list of the section
    names, in the order of the file, each with its lines joined and stripped;
    the lines before the first header are ignored. *)
Theorem parse_sections_round_trip pre secs :
  Forall (λ line, startswith line "# " = false) pre →
  sections_ok secs →
  parse_markdown_cv (Some (pre ++ file_lines secs)) =
  (λ sec : string * list string,
     (section_name sec.1, strip (concat_lines sec.2))) <$> secs.
Proof.
  intros Hpre [Hok Hnd]. unfold parse_markdown_cv, parse_lines.
  rewrite foldl_app, parse_preamble by done.
  destruct (parse_sections secs [] None None Hok Hnd) as (cs & css & Heq).
  { apply Forall_true. done. }
  rewrite Heq. cbn [cv_data app]. rewrite <- list_fmap_compose. done.
Qed.

Lemma parse_sections_round_trip_witness :
  let pre := ["Curriculum vitae" +:+ String lf ""; String lf ""] in
  let secs :=
    [("# Summary" +:+ String lf "",
      ["Product lead." +:+ String lf ""; String lf ""]);
     ("# Skills " +:+ String lf "",
      ["- SQL" +:+ String lf ""; "- Python" +:+ String lf ""])] in
  parse_markdown_cv (Some (pre ++ file_lines secs)) =
  (λ sec : string * list string,
     (section_name sec.1, strip (concat_lines sec.2))) <$> secs.
Proof.
  intros pre secs. apply (parse_sections_round_trip pre secs).
  - apply (bool_decide_unpack _). vm_compute. reflexivity.
  - split.
    + repeat first [apply Forall_nil_2 | apply Forall_cons_2 | split];
        vm_compute; (reflexivity || discriminate).
    + apply (bool_decide_unpack _). vm_compute. reflexivity.
Defined.

End CvParserFacts.
